(** * do: Result and its combinators

    A shallow embedding of package [do] (Go 1.18 generics): the [Result]
    container carrying a value or an error and an optional error handler, and
    the combinators [Map], [MapOrErr], [Check], [Fold] and [WithErrHandler].

    Go functions passed by the caller are arbitrary code: they may change
    state they close over (the tests count calls in a captured variable) and
    they may panic. They are modelled as state transformers over a world [W]
    with an outcome that either returns or panics. The combinators run in the
    same monad extended with a log of the calls they make to function values,
    so that "the function is not invoked" and "invoked once" are statements
    about that log.

    A function parameter ([mapFn], [checkFn], [okFn], [errFn]) is a function
    of the model; a nil function value behaves, where it is called, as a
    function that panics. The [errHandler] field is compared with nil by the
    code and is therefore optional. *)

From Stdlib Require Import List String Ascii Bool Arith ZArith Lia.
Import ListNotations.

(** ** Values every Go type has *)

(** The zero value of a type: what a struct literal leaves in a field it does
    not mention. *)
Class Zero (T : Type) : Type := zero : T.

#[global] Instance Zero_bool : Zero bool := false.
#[global] Instance Zero_nat : Zero nat := 0.
#[global] Instance Zero_string : Zero string := EmptyString.
#[global] Instance Zero_unit : Zero unit := tt.
#[global] Instance Zero_option (A : Type) : Zero (option A) := None.
#[global] Instance Zero_list (A : Type) : Zero (list A) := [].

(** ** Outcomes and calls *)

(** A Go call either returns or panics with a message. *)
Inductive outcome (A : Type) : Type :=
| Returns (a : A)
| Panics (msg : string).
Arguments Returns {A} a.
Arguments Panics {A} msg.

(** The function values the combinators call, named after the parameter or
    field that holds them in the source. *)
Inductive Call : Type :=
| CallMapFn        (* mapFn of Map and MapOrErr *)
| CallCheckFn      (* checkFn of Check *)
| CallErrHandler   (* the errHandler field, from handleErr *)
| CallOkFn         (* okFn of Fold *)
| CallErrFn.       (* errFn of Fold *)

Definition Call_eqb (a b : Call) : bool :=
  match a, b with
  | CallMapFn, CallMapFn
  | CallCheckFn, CallCheckFn
  | CallErrHandler, CallErrHandler
  | CallOkFn, CallOkFn
  | CallErrFn, CallErrFn => true
  | _, _ => false
  end.

(** How often a function value was called according to a log. *)
Definition calls_of (c : Call) (log : list Call) : nat :=
  List.length (filter (Call_eqb c) log).

Module Do.

Section Model.

(** [E] are the non-nil values of Go's [error] interface; [W] is the state
    the caller's functions can reach. *)
Variable E : Type.
Variable W : Type.

(** Go's [error]: nil or a value. *)
Definition error : Type := option E.

(** Code supplied by the caller. *)
Definition Ext (A : Type) : Type := W -> outcome A * W.

(** Code of the package: the world and the log of calls made so far. *)
Definition Go (A : Type) : Type := W * list Call -> outcome A * (W * list Call).

Definition ret {A} (a : A) : Go A := fun s => (Returns a, s).

Definition bind {A B} (m : Go A) (k : A -> Go B) : Go B :=
  fun s =>
    match m s with
    | (Returns a, s') => k a s'
    | (Panics msg, s') => (Panics msg, s')
    end.

Definition panic {A} (msg : string) : Go A := fun s => (Panics msg, s).

(** Calling the function value held by [c]: the call is logged and the
    function's body runs on the world. *)
Definition invoke {A} (c : Call) (body : Ext A) : Go A :=
  fun s =>
    let (o, w') := body (fst s) in
    (o, (w', snd s ++ [c])).

Notation "x <- m ;; k" := (bind m (fun x => k))
  (at level 61, m at next level, right associativity).

(** [type Result[T any] struct { val T; err error; errHandler func(error) error }] *)
Record Result (T : Type) : Type := mkResult {
  val : T;
  err : error;
  errHandler : option (error -> Ext error)
}.
Arguments mkResult {T} _ _ _.
Arguments val {T} _.
Arguments err {T} _.
Arguments errHandler {T} _.

(** [func (r Result[T]) handleErr(err error) error] *)
Definition handleErr {T} (r : Result T) (e : error) : Go error :=
  match e with
  | None => ret None
  | Some _ =>
      match errHandler r with
      | None => ret e
      | Some h => invoke CallErrHandler (h e)
      end
  end.

(** [func WithReturn[T any](val T, err error) Result[T]] *)
Definition WithReturn {T} (v : T) (e : error) : Result T :=
  {| val := v; err := e; errHandler := None |}.

(** [func WithJust[T any](val T) Result[T]] *)
Definition WithJust {T} (v : T) : Result T :=
  {| val := v; err := None; errHandler := None |}.

(** [func (r Result[T]) IsError() bool] *)
Definition IsError {T} (r : Result T) : bool :=
  match err r with
  | Some _ => true
  | None => false
  end.

(** [func (r Result[T]) Err() error] *)
Definition Err {T} (r : Result T) : error := err r.

(** [func (r Result[T]) Val() T] *)
Definition Val {T} (r : Result T) : Go T :=
  if IsError r then panic "called Val for result that IsError"%string
  else ret (val r).

(** [func (r Result[T]) Return() (T, error)] *)
Definition Return {T} (r : Result T) : T * error := (val r, err r).

(** [func Map[T, newT any](input Result[T], mapFn func(T) newT) Result[newT]] *)
Definition Map {T newT} `{Zero newT}
    (input : Result T) (mapFn : T -> Ext newT) : Go (Result newT) :=
  if IsError input then
    ret {| val := zero; err := err input; errHandler := None |}
  else
    v <- invoke CallMapFn (mapFn (val input)) ;;
    ret {| val := v; err := None; errHandler := errHandler input |}.

(** [func MapOrErr[T, newT any](input Result[T], mapFn func(T) (newT, error)) Result[newT]] *)
Definition MapOrErr {T newT} `{Zero newT}
    (input : Result T) (mapFn : T -> Ext (newT * error)) : Go (Result newT) :=
  if IsError input then
    ret {| val := zero; err := err input; errHandler := None |}
  else
    p <- invoke CallMapFn (mapFn (val input)) ;;
    e <- handleErr input (snd p) ;;
    ret {| val := fst p; err := e; errHandler := errHandler input |}.

(** [func Fold[T any](input Result[T], okFn func(T), errFn func(error))] *)
Definition Fold {T} (input : Result T)
    (okFn : T -> Ext unit) (errFn : error -> Ext unit) : Go unit :=
  if IsError input then invoke CallErrFn (errFn (err input))
  else invoke CallOkFn (okFn (val input)).

(** [func Check[T any](input Result[T], checkFn func(T) error) Result[T]]:
    [input] is the callee's own copy; its [err] field is assigned and the
    copy returned. *)
Definition Check {T} (input : Result T) (checkFn : T -> Ext error) : Go (Result T) :=
  if IsError input then ret input
  else
    e0 <- invoke CallCheckFn (checkFn (val input)) ;;
    e <- handleErr input e0 ;;
    ret {| val := val input; err := e; errHandler := errHandler input |}.

(** [func WithErrHandler[T any](input Result[T], wrapFn func(error) error) Result[T]];
    [wrapFn] may be nil. *)
Definition WithErrHandler {T} (input : Result T)
    (wrapFn : option (error -> Ext error)) : Go (Result T) :=
  ret {| val := val input; err := err input; errHandler := wrapFn |}.

(** *** Chains of combinator calls

    Caller code threads a Result through [Check], [Map] and [MapOrErr], the
    success type changing on the way:
    [r1 := Check(r0, f1); r2 := Map(r1, f2); r3 := MapOrErr(r2, f3) ...].
    A [Chain T V] is such a sequence of calls taking a [Result T] to a
    [Result V]. *)
Inductive Chain : Type -> Type -> Type :=
| Stop (T : Type) : Chain T T
| ThenCheck (T V : Type) (checkFn : T -> Ext error)
    (rest : Chain T V) : Chain T V
| ThenMap (T U V : Type) (Z : Zero U) (mapFn : T -> Ext U)
    (rest : Chain U V) : Chain T V
| ThenMapOrErr (T U V : Type) (Z : Zero U) (mapFn : T -> Ext (U * error))
    (rest : Chain U V) : Chain T V.

Fixpoint run {T V} (c : Chain T V) : Result T -> Go (Result V) :=
  match c in Chain T0 V0 return Result T0 -> Go (Result V0) with
  | Stop _ => fun r => ret r
  | ThenCheck _ _ checkFn rest =>
      fun r => r' <- Check r checkFn ;; run rest r'
  | ThenMap _ _ _ Z mapFn rest =>
      fun r => r' <- Map r mapFn ;; run rest r'
  | ThenMapOrErr _ _ _ Z mapFn rest =>
      fun r => r' <- MapOrErr r mapFn ;; run rest r'
  end.

(** The log a computation leaves behind, and the calls it added to the one
    it started from. *)
Definition log_after {A} (m : Go A) (s : W * list Call) : list Call :=
  snd (snd (m s)).

Definition world_after {A} (m : Go A) (s : W * list Call) : W :=
  fst (snd (m s)).

(** A caller function that returns (does not panic) with a non-nil error
    in world [w]. *)
Definition yields_error (o : outcome error) : bool :=
  match o with
  | Returns (Some _) => true
  | _ => false
  end.

Definition yields_error2 {A} (o : outcome (A * error)) : bool :=
  match o with
  | Returns (_, Some _) => true
  | _ => false
  end.

(** A handler that never turns an error into nil. *)
Definition keeps_errors (h : error -> Ext error) : Prop :=
  forall e w, fst (h (Some e) w) <> Returns None.

End Model.

Arguments ret {W A} a _.
Arguments bind {W A B} m k _.
Arguments panic {W A} msg _.
Arguments invoke {W A} c body _.
Arguments mkResult {E W T} val err errHandler.
Arguments val {E W T} r.
Arguments err {E W T} r.
Arguments errHandler {E W T} r.
Arguments handleErr {E W T} r e _.
Arguments WithReturn {E W T} v e.
Arguments WithJust {E W T} v.
Arguments IsError {E W T} r.
Arguments Err {E W T} r.
Arguments Val {E W T} r _.
Arguments Return {E W T} r.
Arguments Map {E W T newT _} input mapFn _.
Arguments MapOrErr {E W T newT _} input mapFn _.
Arguments Fold {E W T} input okFn errFn _.
Arguments Check {E W T} input checkFn _.
Arguments WithErrHandler {E W T} input wrapFn _.
Arguments Stop {E W T}.
Arguments ThenCheck {E W T V} checkFn rest.
Arguments ThenMap {E W T U V Z} mapFn rest.
Arguments ThenMapOrErr {E W T U V Z} mapFn rest.
Arguments run {E W T V} c _ _.
Arguments log_after {W A} m s.
Arguments world_after {W A} m s.
Arguments yields_error {E} o.
Arguments yields_error2 {E A} o.
Arguments keeps_errors {E W} h.

End Do.

(** ** The Result of result.go

    result.go holds the package before [Check] and the error handler were
    added: a [Result] of two fields whose [Val] has no guard, with [Map],
    [MapOrErr] and [Fold]. *)
Module NoHandler.

Section Model.

Variable E : Type.

(** [type Result[T any] struct { val T; err error }] *)
Record Result (T : Type) : Type := mkResult {
  val : T;
  err : option E
}.
Arguments mkResult {T} _ _.
Arguments val {T} _.
Arguments err {T} _.

(** [func WithReturn[T any](val T, err error) Result[T]] *)
Definition WithReturn {T} (v : T) (e : option E) : Result T :=
  {| val := v; err := e |}.

(** [func (r Result[T]) IsError() bool] *)
Definition IsError {T} (r : Result T) : bool :=
  match err r with
  | Some _ => true
  | None => false
  end.

(** [func (r Result[T]) Val() T]: "The returned value will be invalid if
    the Result contains an error." *)
Definition Val {T} (r : Result T) : outcome T := Returns (val r).

End Model.

Arguments mkResult {E T} val err.
Arguments val {E T} r.
Arguments err {E T} r.
Arguments WithReturn {E T} v e.
Arguments IsError {E T} r.
Arguments Val {E T} r.

Section Combinators.

Variable E : Type.
Variable W : Type.

(** [func WithJust[T any](val T) Result[T]] *)
Definition WithJust {T} (v : T) : Result E T :=
  {| val := v; err := None |}.

(** [func (r Result[T]) Err() error] *)
Definition Err {T} (r : Result E T) : option E := err r.

(** [func (r Result[T]) Return() (T, error)] *)
Definition Return {T} (r : Result E T) : T * option E := (val r, err r).

(** [func Map[T, newT any](input Result[T], mapFn func(T) newT) Result[newT]] *)
Definition Map {T newT} `{Zero newT}
    (input : Result E T) (mapFn : T -> Do.Ext W newT) : Do.Go W (Result E newT) :=
  if IsError input then
    Do.ret {| val := zero; err := err input |}
  else
    Do.bind (Do.invoke CallMapFn (mapFn (val input)))
      (fun v => Do.ret {| val := v; err := None |}).

(** [func Fold[T any](input Result[T], okFn func(T), errFn func(error))] *)
Definition Fold {T} (input : Result E T)
    (okFn : T -> Do.Ext W unit) (errFn : option E -> Do.Ext W unit) : Do.Go W unit :=
  if IsError input then Do.invoke CallErrFn (errFn (err input))
  else Do.invoke CallOkFn (okFn (val input)).

(** [func MapOrErr[T, newT any](input Result[T], mapFn func(T) (newT, error)) Result[newT]] *)
Definition MapOrErr {T newT} `{Zero newT}
    (input : Result E T) (mapFn : T -> Do.Ext W (newT * option E)) :
    Do.Go W (Result E newT) :=
  if IsError input then
    Do.ret {| val := zero; err := err input |}
  else
    Do.bind (Do.invoke CallMapFn (mapFn (val input)))
      (fun p => Do.ret {| val := fst p; err := snd p |}).

(** The two fields a Result with handler shares with the Result of
    result.go. *)
Definition forget {T} (r : Do.Result E W T) : Result E T :=
  {| val := Do.val r; err := Do.err r |}.

Definition forget_returned {T S} (x : outcome (Do.Result E W T) * S) :
    outcome (Result E T) * S :=
  match x with
  | (Returns r, s) => (Returns (forget r), s)
  | (Panics msg, s) => (Panics msg, s)
  end.

End Combinators.

Arguments WithJust {E T} v.
Arguments Err {E T} r.
Arguments Return {E T} r.
Arguments Map {E W T newT _} input mapFn _.
Arguments Fold {E W T} input okFn errFn _.
Arguments MapOrErr {E W T newT _} input mapFn _.
Arguments forget {E W T} r.
Arguments forget_returned {E W T S} x.

End NoHandler.

(** ** Inputs

    The functions and Results of the package's tests, and a handler that
    returns nil. Errors are their messages ([errors.New], [fmt.Errorf]); the
    world is the [calls] counter the test closures increment. *)
Module Tests.

Import Do.
Local Open Scope string_scope.

Definition Error : Type := string.
Definition World : Type := nat.

(** [func(err error) error { calls++; return fmt.Errorf("wrapped: %w", err) }] *)
Definition wrapped : error Error -> Ext World (error Error) :=
  fun e calls =>
    (Returns (Some ("wrapped: " ++ match e with
                                   | Some m => m
                                   | None => "%!w(<nil>)"
                                   end)),
     S calls).

(** [func(err error) error { calls++; return nil }] *)
Definition swallow : error Error -> Ext World (error Error) :=
  fun _ calls => (Returns None, S calls).

(** [func(bool) error { return errors.New("fail") }] *)
Definition failing : bool -> Ext World (error Error) :=
  fun _ calls => (Returns (Some "fail"), calls).

(** [func(bool) error { return nil }] *)
Definition passing : bool -> Ext World (error Error) :=
  fun _ calls => (Returns None, calls).

(** [testStub]: the buffer is its content, a nil buffer is [None]. *)
Definition testStub (s : string) : option string * error Error :=
  if String.eqb s "fail" then (None, Some "fail") else (Some s, None).

(** [func(bool) (io.Reader, error) { return testStub("fail") }] *)
Definition stubFail : bool -> Ext World (option string * error Error) :=
  fun _ calls => (Returns (testStub "fail"), calls).

(** [func(T) U { panic("unexpected call") }] *)
Definition unexpected {T U : Type} : T -> Ext World U :=
  fun _ calls => (Panics "unexpected call", calls).

(** [func(s string) { calls++ }] and [func(err error) { calls++ }] *)
Definition counted {T : Type} : T -> Ext World unit :=
  fun _ calls => (Returns tt, S calls).

(** [func(b bool) bool { return !b }] *)
Definition negate : bool -> Ext World bool :=
  fun b calls => (Returns (negb b), calls).

(** [do.WithReturn(true, errors.New("fail"))] with [wrapped] installed. *)
Definition failed_with_handler : Result Error World bool :=
  mkResult true (Some "fail") (Some wrapped).

(** [do.WithJust(true)] with [wrapped], and with [swallow], installed. *)
Definition just_wrapped : Result Error World bool :=
  mkResult true None (Some wrapped).

Definition just_swallow : Result Error World bool :=
  mkResult true None (Some swallow).

(** [r = do.Check(r, failing); r = do.Check(r, failing)] *)
Definition check_twice : Chain Error World bool bool :=
  ThenCheck failing (ThenCheck failing Stop).

(** The chain of the test "Wrap only once". *)
Definition wrap_only_once : Chain Error World bool (option string) :=
  ThenCheck failing (ThenCheck failing
    (ThenMapOrErr stubFail (ThenMapOrErr (fun _ => stubFail true) Stop))).

(** [func(bool) (io.Reader, error) { return testStub("example") }] *)
Definition stubExample : bool -> Ext World (option string * error Error) :=
  fun _ calls => (Returns (testStub "example"), calls).

(** [func(r io.Reader) io.Reader { return io.LimitReader(r, 10) }] *)
Definition limit10 : option string -> Ext World (option string) :=
  fun r calls => (Returns (option_map (substring 0 10) r), calls).

(** The chain of the test "Handler passed on by Map, MapOrErr, and Check". *)
Definition handler_passed_on : Chain Error World bool (option string) :=
  ThenCheck passing
    (ThenMapOrErr stubExample
       (ThenMap limit10
          (ThenCheck (fun _ => failing true) Stop))).

(** [func(err error) error { if err == nil { return nil }; calls++;
    return fmt.Errorf("wrapped: %w", err) }] *)
Definition wrapped_or_nil : error Error -> Ext World (error Error) :=
  fun e calls =>
    match e with
    | Some m => (Returns (Some ("wrapped: " ++ m)), S calls)
    | None => (Returns None, calls)
    end.

End Tests.

(** ** Function values built from others *)
Module Fn.

Import Do.

Section Defs.

Variable E : Type.
Variable W : Type.

(** [func(x T) T { return x }] *)
Definition identity {T} : T -> Ext W T :=
  fun x w => (Returns x, w).

(** [func(x T) V { return g(f(x)) }] *)
Definition andThen {T U V} (f : T -> Ext W U) (g : U -> Ext W V) : T -> Ext W V :=
  fun x w =>
    match f x w with
    | (Returns y, w') => g y w'
    | (Panics msg, w') => (Panics msg, w')
    end.

(** [func(x T) (U, error) { return f(x), nil }] *)
Definition noError {T U} (f : T -> Ext W U) : T -> Ext W (U * error E) :=
  fun x w =>
    match f x w with
    | (Returns y, w') => (Returns (y, None), w')
    | (Panics msg, w') => (Panics msg, w')
    end.

(** A function without effects, as a function value. *)
Definition pure {T A} (f : T -> A) : T -> Ext W A :=
  fun x w => (Returns (f x), w).

(** A function of the caller that itself uses the package, passed as a
    function value: the calls it makes inside are its own. *)
Definition asExt {A} (m : Go W A) : Ext W A :=
  fun w => (fst (m (w, [])), fst (snd (m (w, [])))).

(** What [Return()] shows of the Result a call returned. *)
Definition returned {T} (o : outcome (Result E W T)) : outcome (T * error E) :=
  match o with
  | Returns r => Returns (Return r)
  | Panics msg => Panics msg
  end.

End Defs.

Arguments identity {W T} x w.
Arguments andThen {W T U V} f g x w.
Arguments noError {E W T U} f x w.
Arguments pure {W T A} f x w.
Arguments asExt {W A} m w.
Arguments returned {E W T} o.

End Fn.

(** ** The request validators of the example

    [validRequest] and the checks it chains, and the handler [echoUser] of
    [Example]. A request is what the checks read of it: the method, the path
    of the URL, and what [Header.Get] returns for a key. Every error of the
    example is an [InvalidRequest]. *)
Module EchoUser.

Import Do.
Local Open Scope string_scope.

Local Notation "x <- m ;; k" := (bind m (fun x => k))
  (at level 61, m at next level, right associativity).

(** [type InvalidRequest struct { msg string; code int }] *)
Record InvalidRequest : Type := mkInvalidRequest {
  msg : string;
  code : Z
}.

Record Request : Type := mkRequest {
  Method : string;
  Path : string;
  Header_Get : string -> string
}.

Definition StatusBadRequest : Z := 400.
Definition StatusNotFound : Z := 404.

(** The double quote of the messages. *)
Definition dquote : string := String (ascii_of_nat 34) EmptyString.

(** The header is present and is not [application/json]: the condition of
    both header checks. *)
Definition notJSON (value : string) : bool :=
  negb (String.eqb value EmptyString) && negb (String.eqb value "application/json").

(** [func acceptsJSON(r *http.Request) error] *)
Definition acceptsJSON (r : Request) : error InvalidRequest :=
  let accepts := Header_Get r "accepts" in
  if notJSON accepts then
    Some {| msg := "expected " ++ dquote ++ "application/json" ++ dquote
                   ++ " Accepts header. Got: " ++ accepts;
            code := StatusBadRequest |}
  else None.

(** [func contentTypeJSON(r *http.Request) error] *)
Definition contentTypeJSON (r : Request) : error InvalidRequest :=
  let accepts := Header_Get r "content-type" in
  if notJSON accepts then
    Some {| msg := "expected " ++ dquote ++ "application/json" ++ dquote
                   ++ " Content-Type header. Got: " ++ accepts;
            code := StatusBadRequest |}
  else None.

(** [func requestMatch(got, want string, code int) func(_ *http.Request) error] *)
Definition requestMatch (got want : string) (c : Z) : Request -> error InvalidRequest :=
  fun _ =>
    if negb (String.eqb got want) then
      Some {| msg := "invalid request"; code := c |}
    else None.

Section Handlers.

Variable W : Type.

(** [func validRequest(method, path string) func(req *http.Request) error] *)
Definition validRequest (method path : string) : Request -> Go W (error InvalidRequest) :=
  fun req =>
    let r := WithJust req in
    r <- Check r (Fn.pure acceptsJSON) ;;
    r <- Check r (Fn.pure contentTypeJSON) ;;
    r <- Check r (Fn.pure (requestMatch (Path req) path StatusNotFound)) ;;
    r <- Check r (Fn.pure (requestMatch (Method req) method StatusNotFound)) ;;
    ret (Err r).

(** The same validation with an [if err != nil { return err }] after each
    check. *)
Definition validRequest_direct (method path : string) (req : Request) :
    error InvalidRequest :=
  match acceptsJSON req with
  | Some e => Some e
  | None =>
      match contentTypeJSON req with
      | Some e => Some e
      | None =>
          match requestMatch (Path req) path StatusNotFound req with
          | Some e => Some e
          | None => requestMatch (Method req) method StatusNotFound req
          end
      end
  end.

(** The number of checks up to and including the first that fails. *)
Definition checks_run (method path : string) (req : Request) : nat :=
  match acceptsJSON req with
  | Some _ => 1
  | None =>
      match contentTypeJSON req with
      | Some _ => 2
      | None =>
          match requestMatch (Path req) path StatusNotFound req with
          | Some _ => 3
          | None => 4
          end
      end
  end.

(** The parts of [echoUser] that belong to net/http, io and encoding/json:
    [bodyWithLimit], [decodeUser], [encode[User](rw)] and [encodeError(rw)]. *)
Variables Reader User : Type.
Context `{Zero Reader} `{Zero User}.
Variable bodyWithLimit : Request -> Ext W Reader.
Variable decodeUser : Reader -> Ext W (User * error InvalidRequest).
Variable encode : User -> Ext W unit.
Variable encodeError : error InvalidRequest -> Ext W unit.

(** [echoUser := func(rw http.ResponseWriter, r *http.Request)] of [Example] *)
Definition echoUser (r : Request) : Go W unit :=
  let req := WithJust r in
  req <- Check req (fun q => Fn.asExt (validRequest "POST" "/echo" q)) ;;
  body <- Map req bodyWithLimit ;;
  user <- MapOrErr body decodeUser ;;
  Fold user encode encodeError.

End Handlers.

Arguments validRequest {W} method path _ _.
Arguments echoUser {W Reader User _ _} bodyWithLimit decodeUser encode encodeError r _.

(** *** The request as a pointer

    [validRequest] is given a [*http.Request]. Its checks read [r.Header],
    and its body reads [req.URL.Path] and [req.Method], each time it builds
    the arguments of a [do.Check] call: a nil request, and a request whose
    [URL] field is nil, make it panic. [Request] above is the request that
    is not nil and has a URL. *)
Inductive RequestPtr : Type :=
| NilRequest
| NoURL (method : string) (header_get : string -> string)
| WithURL (req : Request).

(** The message of the runtime's panic on a nil pointer. *)
Definition nilDereference : string :=
  "runtime error: invalid memory address or nil pointer dereference".

(** The fields of a request without URL that a header check can read; the
    header checks read [Header_Get] alone. *)
Definition withoutURL (method : string) (header_get : string -> string) : Request :=
  {| Method := method; Path := EmptyString; Header_Get := header_get |}.

(** The closure [requestMatch] returns, on the pointer it is given and
    ignores. *)
Definition requestMatchPtr (got want : string) (c : Z) :
    RequestPtr -> error InvalidRequest :=
  fun _ =>
    if negb (String.eqb got want) then
      Some {| msg := "invalid request"; code := c |}
    else None.

Section Pointers.

Variable W : Type.

(** [acceptsJSON] and [contentTypeJSON] on the pointer: [r.Header] of a nil
    request panics. *)
Definition onRequest (check : Request -> error InvalidRequest) :
    RequestPtr -> Ext W (error InvalidRequest) :=
  fun r w =>
    match r with
    | NilRequest => (Panics nilDereference, w)
    | NoURL method header_get => (Returns (check (withoutURL method header_get)), w)
    | WithURL req => (Returns (check req), w)
    end.

(** [req.URL.Path] *)
Definition urlPath (req : RequestPtr) : Go W string :=
  match req with
  | WithURL q => ret (Path q)
  | NilRequest | NoURL _ _ => panic nilDereference
  end.

(** [req.Method] *)
Definition methodOf (req : RequestPtr) : Go W string :=
  match req with
  | NilRequest => panic nilDereference
  | NoURL method _ => ret method
  | WithURL q => ret (Method q)
  end.

(** [func validRequest(method, path string) func(req *http.Request) error],
    on the pointer: the arguments of each [do.Check] call are evaluated
    before the call, whatever the state of [r]. *)
Definition validRequest_ptr (method path : string) :
    RequestPtr -> Go W (error InvalidRequest) :=
  fun req =>
    let r := WithJust req in
    r <- Check r (onRequest acceptsJSON) ;;
    r <- Check r (onRequest contentTypeJSON) ;;
    gotPath <- urlPath req ;;
    r <- Check r (Fn.pure (requestMatchPtr gotPath path StatusNotFound)) ;;
    gotMethod <- methodOf req ;;
    r <- Check r (Fn.pure (requestMatchPtr gotMethod method StatusNotFound)) ;;
    ret (Err r).

End Pointers.

Arguments onRequest {W} check r w.
Arguments urlPath {W} req _.
Arguments methodOf {W} req _.
Arguments validRequest_ptr {W} method path _ _.

(** [testRequest(method, path, body)]: content-type application/json and no
    other header. *)
Definition testRequest (method path : string) : Request :=
  {| Method := method;
     Path := path;
     Header_Get := fun key =>
       if String.eqb key "content-type" then "application/json" else EmptyString |}.

(** A response writer that records what a handler writes: status code and
    body. The functions below stand for those of the example on such a
    writer, with a body read as a string and decoded by [decode]. *)
Definition Response : Type := list (Z * string).

Definition StatusOK : Z := 200.

Definition newline : string := String (ascii_of_nat 10) EmptyString.

(** [encodeError(rw)] on an [InvalidRequest]:
    [http.Error(rw, err.Error(), err.code)], which writes the message and a
    newline; [err.Error()] of a nil error panics. *)
Definition recordError : error InvalidRequest -> Ext Response unit :=
  fun e rw =>
    match e with
    | Some e => (Returns tt, (rw ++ [(code e, (msg e ++ newline)%string)])%list)
    | None => (Panics nilDereference, rw)
    end.

Definition recordUser : string -> Ext Response unit :=
  fun u rw => (Returns tt, (rw ++ [(StatusOK, u)])%list).

Definition readBody (body : string) : Request -> Ext Response string :=
  fun _ rw => (Returns body, rw).

Definition decodeWith (decode : string -> string + string) :
    string -> Ext Response (string * error InvalidRequest) :=
  fun body rw =>
    match decode body with
    | inl u => (Returns (u, None), rw)
    | inr m => (Returns (EmptyString, Some {| msg := m; code := StatusBadRequest |}), rw)
    end.

(** A decoder that rejects the body [invalid] of the example's first
    request. *)
Definition decodeStub (body : string) : string + string :=
  if String.eqb body "invalid"
  then inr "invalid character 'i' looking for beginning of value"
  else inl body.

End EchoUser.

(** ** Properties of the combinators *)

Import Do.

Section Properties.

Context {E W : Type}.

Implicit Types (log : list Call) (w : W) (s : W * list Call).

(* handleErr is rewritten with its equations below, not unfolded. *)
#[local] Arguments handleErr : simpl never.

(** *** The log *)

Lemma calls_of_app c log1 log2 :
  calls_of c (log1 ++ log2) = calls_of c log1 + calls_of c log2.
Proof.
  unfold calls_of. now rewrite filter_app, length_app.
Qed.

Lemma calls_of_snoc c c' log :
  calls_of c (log ++ [c']) = calls_of c log + (if Call_eqb c c' then 1 else 0).
Proof.
  rewrite calls_of_app. unfold calls_of at 2. simpl.
  now destruct (Call_eqb c c').
Qed.

(** *** The two states *)

Lemma IsError_true {T} (r : Result E W T) :
  IsError r = true <-> exists e, err r = Some e.
Proof.
  unfold IsError. destruct (err r) as [e|]; split.
  - intros _. now exists e.
  - reflexivity.
  - discriminate.
  - intros [e He]. discriminate.
Qed.

Lemma IsError_false {T} (r : Result E W T) :
  IsError r = false <-> err r = None.
Proof.
  unfold IsError. destruct (err r); split; congruence.
Qed.

(** *** One call of each combinator, by cases *)

Lemma Map_err {T U} `{Zero U} (r : Result E W T) (f : T -> Ext W U) s :
  IsError r = true ->
  Map r f s = (Returns (mkResult zero (err r) None), s).
Proof.
  intros Hr. unfold Map. now rewrite Hr.
Qed.

Lemma Map_ok {T U} `{Zero U} (r : Result E W T) (f : T -> Ext W U) w log :
  IsError r = false ->
  Map r f (w, log) =
    match f (val r) w with
    | (Returns v, w') =>
        (Returns (mkResult v None (errHandler r)), (w', log ++ [CallMapFn]))
    | (Panics msg, w') => (Panics msg, (w', log ++ [CallMapFn]))
    end.
Proof.
  intros Hr. unfold Map, bind, invoke, ret. rewrite Hr. simpl.
  now destruct (f (val r) w) as [[v|msg] w'].
Qed.

Lemma handleErr_nil {T} (r : Result E W T) s :
  handleErr r None s = (Returns None, s).
Proof. reflexivity. Qed.

Lemma handleErr_no_handler {T} (r : Result E W T) e s :
  errHandler r = None ->
  handleErr r e s = (Returns e, s).
Proof.
  intros Hh. unfold handleErr. rewrite Hh. now destruct e.
Qed.

Lemma handleErr_handler {T} (r : Result E W T) h e w log :
  errHandler r = Some h ->
  handleErr r (Some e) (w, log) =
    (fst (h (Some e) w), (snd (h (Some e) w), log ++ [CallErrHandler])).
Proof.
  intros Hh. unfold handleErr, invoke. rewrite Hh. simpl.
  now destruct (h (Some e) w).
Qed.

Lemma MapOrErr_err {T U} `{Zero U} (r : Result E W T)
    (f : T -> Ext W (U * error E)) s :
  IsError r = true ->
  MapOrErr r f s = (Returns (mkResult zero (err r) None), s).
Proof.
  intros Hr. unfold MapOrErr. now rewrite Hr.
Qed.

Lemma MapOrErr_ok {T U} `{Zero U} (r : Result E W T)
    (f : T -> Ext W (U * error E)) w log :
  IsError r = false ->
  MapOrErr r f (w, log) =
    match f (val r) w with
    | (Returns (v, e), w') =>
        match handleErr r e (w', log ++ [CallMapFn]) with
        | (Returns e', s') => (Returns (mkResult v e' (errHandler r)), s')
        | (Panics msg, s') => (Panics msg, s')
        end
    | (Panics msg, w') => (Panics msg, (w', log ++ [CallMapFn]))
    end.
Proof.
  intros Hr. unfold MapOrErr, bind, invoke, ret. rewrite Hr. simpl.
  destruct (f (val r) w) as [[[v e]|msg] w']; simpl; [|reflexivity].
  now destruct (handleErr r e (w', log ++ [CallMapFn])) as [[e'|msg] s'].
Qed.

Lemma Check_err {T} (r : Result E W T) (f : T -> Ext W (error E)) s :
  IsError r = true ->
  Check r f s = (Returns r, s).
Proof.
  intros Hr. unfold Check. now rewrite Hr.
Qed.

Lemma Check_ok {T} (r : Result E W T) (f : T -> Ext W (error E)) w log :
  IsError r = false ->
  Check r f (w, log) =
    match f (val r) w with
    | (Returns e, w') =>
        match handleErr r e (w', log ++ [CallCheckFn]) with
        | (Returns e', s') => (Returns (mkResult (val r) e' (errHandler r)), s')
        | (Panics msg, s') => (Panics msg, s')
        end
    | (Panics msg, w') => (Panics msg, (w', log ++ [CallCheckFn]))
    end.
Proof.
  intros Hr. unfold Check, bind, invoke, ret. rewrite Hr. simpl.
  destruct (f (val r) w) as [[e|msg] w']; simpl; [|reflexivity].
  now destruct (handleErr r e (w', log ++ [CallCheckFn])) as [[e'|msg] s'].
Qed.

(** A Result in the Ok state is determined by its value and handler. *)
Lemma ok_eta {T} (r : Result E W T) :
  IsError r = false -> mkResult (val r) None (errHandler r) = r.
Proof.
  intros Hr%IsError_false. destruct r as [v e h]. simpl in *. now subst.
Qed.

(** *** A failure, once recorded, ends all calls *)

Lemma run_err {T V} (c : Chain E W T V) :
  forall (r : Result E W T) s,
    IsError r = true ->
    exists r', run c r s = (Returns r', s) /\ err r' = err r.
Proof.
  induction c as [T|T V f rest IH|T U V Z f rest IH|T U V Z f rest IH];
    intros r s Hr; simpl.
  - now exists r.
  - unfold bind. rewrite Check_err by assumption. now apply IH.
  - unfold bind. rewrite Map_err by assumption.
    destruct (IH (mkResult zero (err r) None) s) as (r' & Hrun & Herr);
      [exact Hr|].
    now exists r'.
  - unfold bind. rewrite MapOrErr_err by assumption.
    destruct (IH (mkResult zero (err r) None) s) as (r' & Hrun & Herr);
      [exact Hr|].
    now exists r'.
Qed.

(** *** Short-circuit *)

(** C1. On a Result in the Err state, [Map], [MapOrErr] and [Check] do not
    invoke the caller's function, whatever it is: the call returns, the
    world and the log of calls are those before the call, and the failure
    of the returned Result is the input's. *)
Theorem short_circuit_on_err {T U} `{Zero U} (r : Result E W T)
    (f : T -> Ext W U) (g : T -> Ext W (U * error E))
    (k : T -> Ext W (error E)) s :
  IsError r = true ->
  (exists r', Map r f s = (Returns r', s) /\ Err r' = Err r) /\
  (exists r', MapOrErr r g s = (Returns r', s) /\ Err r' = Err r) /\
  (exists r', Check r k s = (Returns r', s) /\ Err r' = Err r).
Proof.
  intros Hr. repeat split.
  - eexists. split; [now apply Map_err|reflexivity].
  - eexists. split; [now apply MapOrErr_err|reflexivity].
  - eexists. split; [now apply Check_err|reflexivity].
Qed.

(** *** Map and the handler *)

(** C3 (amended). [Map] on an Err input returns, without calling [mapFn], an
    Err Result of the new type with the same failure, the zero value and no
    error handler; on an Ok input with value [v] it calls [mapFn] once and,
    when that returns [v'], returns an Ok Result with value [v'] carrying the
    input's handler. *)
Theorem Map_handler {T U} `{Zero U} (r : Result E W T) (f : T -> Ext W U) w log :
  (IsError r = true ->
     Map r f (w, log) = (Returns (mkResult zero (Err r) None), (w, log))) /\
  (IsError r = false ->
     forall v' w', f (val r) w = (Returns v', w') ->
     exists r',
       Map r f (w, log) = (Returns r', (w', log ++ [CallMapFn])) /\
       IsError r' = false /\ val r' = v' /\ errHandler r' = errHandler r).
Proof.
  split.
  - intros Hr. now apply Map_err.
  - intros Hr v' w' Hf. rewrite Map_ok by assumption. rewrite Hf.
    eexists. split; [reflexivity|]. now repeat split.
Qed.

(** *** The value accessor *)

(** [Val] of the Result with handler: on a Result in the Err state it
    panics; on a Result in the Ok state it returns the wrapped value. *)
Theorem Val_panics_on_err {T} (r : Result E W T) s :
  (IsError r = true ->
     Val r s = (Panics "called Val for result that IsError", s)) /\
  (IsError r = false -> Val r s = (Returns (val r), s)).
Proof.
  unfold Val. split; intros Hr; now rewrite Hr.
Qed.

(** *** When the handler is called *)

Ltac count_calls :=
  unfold log_after; simpl; repeat rewrite calls_of_snoc; simpl; lia.

Lemma Check_handler_calls {T} (r : Result E W T) h (f : T -> Ext W (error E)) s :
  errHandler r = Some h ->
  calls_of CallErrHandler (log_after (Check r f) s) =
    calls_of CallErrHandler (snd s) +
    (if negb (IsError r) && yields_error (fst (f (val r) (fst s)))
     then 1 else 0).
Proof.
  intros Hh. destruct s as [w log]. destruct (IsError r) eqn:Hr.
  - unfold log_after. rewrite Check_err by assumption. simpl. lia.
  - unfold log_after. rewrite Check_ok by assumption. simpl.
    destruct (f (val r) w) as [[[e|]|msg] w']; simpl.
    + rewrite (handleErr_handler r h) by assumption.
      destruct (h (Some e) w') as [[e'|msg] w'']; count_calls.
    + count_calls.
    + count_calls.
Qed.

Lemma MapOrErr_handler_calls {T U} `{Zero U} (r : Result E W T) h
    (f : T -> Ext W (U * error E)) s :
  errHandler r = Some h ->
  calls_of CallErrHandler (log_after (MapOrErr r f) s) =
    calls_of CallErrHandler (snd s) +
    (if negb (IsError r) && yields_error2 (fst (f (val r) (fst s)))
     then 1 else 0).
Proof.
  intros Hh. destruct s as [w log]. destruct (IsError r) eqn:Hr.
  - unfold log_after. rewrite MapOrErr_err by assumption. simpl. lia.
  - unfold log_after. rewrite MapOrErr_ok by assumption. simpl.
    destruct (f (val r) w) as [[[v [e|]]|msg] w']; simpl.
    + rewrite (handleErr_handler r h) by assumption.
      destruct (h (Some e) w') as [[e'|msg] w'']; count_calls.
    + count_calls.
    + count_calls.
Qed.

Lemma Map_handler_calls {T U} `{Zero U} (r : Result E W T) (f : T -> Ext W U) s :
  calls_of CallErrHandler (log_after (Map r f) s) =
    calls_of CallErrHandler (snd s).
Proof.
  destruct s as [w log]. destruct (IsError r) eqn:Hr.
  - unfold log_after. now rewrite Map_err by assumption.
  - unfold log_after. rewrite Map_ok by assumption.
    destruct (f (val r) w) as [[v|msg] w']; count_calls.
Qed.

Lemma run_err_log {T V} (c : Chain E W T V) (r : Result E W T) s :
  IsError r = true -> log_after (run c r) s = snd s.
Proof.
  intros Hr. destruct (run_err c r s Hr) as (r' & Hrun & _).
  unfold log_after. now rewrite Hrun.
Qed.

Lemma run_handler_at_most_once h {T V} (c : Chain E W T V) :
  keeps_errors h ->
  forall (r : Result E W T) s,
    errHandler r = Some h ->
    calls_of CallErrHandler (log_after (run c r) s) <=
    calls_of CallErrHandler (snd s) + 1.
Proof.
  intros Hk.
  induction c as [T|T V f rest IH|T U V Z f rest IH|T U V Z f rest IH];
    intros r [w log] Hh; (destruct (IsError r) eqn:Hr;
      [rewrite run_err_log by assumption; simpl; lia|]).
  - count_calls.
  - unfold log_after. simpl. unfold bind. rewrite Check_ok by assumption.
    destruct (f (val r) w) as [[[e|]|msg] w']; simpl.
    + rewrite (handleErr_handler r h) by assumption.
      destruct (h (Some e) w') as [[[e'|]|msg] w''] eqn:Hhe; simpl.
      * fold (log_after (run rest (mkResult (val r) (Some e') (errHandler r)))
                (w'', (log ++ [CallCheckFn]) ++ [CallErrHandler])).
        rewrite run_err_log by reflexivity. count_calls.
      * exfalso. apply (Hk e w'). now rewrite Hhe.
      * count_calls.
    + fold (log_after (run rest (mkResult (val r) None (errHandler r)))
              (w', log ++ [CallCheckFn])).
      specialize (IH (mkResult (val r) None (errHandler r))
                    (w', log ++ [CallCheckFn]) Hh).
      simpl in IH. rewrite calls_of_snoc in IH. simpl in IH. lia.
    + count_calls.
  - unfold log_after. simpl. unfold bind. rewrite Map_ok by assumption.
    destruct (f (val r) w) as [[v|msg] w']; simpl.
    + fold (log_after (run rest (mkResult v None (errHandler r)))
              (w', log ++ [CallMapFn])).
      specialize (IH (mkResult v None (errHandler r))
                    (w', log ++ [CallMapFn]) Hh).
      simpl in IH. rewrite calls_of_snoc in IH. simpl in IH. lia.
    + count_calls.
  - unfold log_after. simpl. unfold bind. rewrite MapOrErr_ok by assumption.
    destruct (f (val r) w) as [[[v [e|]]|msg] w']; simpl.
    + rewrite (handleErr_handler r h) by assumption.
      destruct (h (Some e) w') as [[[e'|]|msg] w''] eqn:Hhe; simpl.
      * fold (log_after (run rest (mkResult v (Some e') (errHandler r)))
                (w'', (log ++ [CallMapFn]) ++ [CallErrHandler])).
        rewrite run_err_log by reflexivity. count_calls.
      * exfalso. apply (Hk e w'). now rewrite Hhe.
      * count_calls.
    + fold (log_after (run rest (mkResult v None (errHandler r)))
              (w', log ++ [CallMapFn])).
      specialize (IH (mkResult v None (errHandler r))
                    (w', log ++ [CallMapFn]) Hh).
      simpl in IH. rewrite calls_of_snoc in IH. simpl in IH. lia.
    + count_calls.
Qed.

(** A chain installs no handler of its own: the Result it returns carries
    the handler it started with, or none. *)
Lemma run_handler_inherited {T V} (c : Chain E W T V) :
  forall (r : Result E W T) s r' s',
    run c r s = (Returns r', s') ->
    errHandler r' = errHandler r \/ errHandler r' = None.
Proof.
  induction c as [T|T V f rest IH|T U V Z f rest IH|T U V Z f rest IH];
    intros r [w log] r' s'; simpl; unfold bind.
  - unfold ret. intros [= <- _]. now left.
  - destruct (IsError r) eqn:Hr.
    + rewrite Check_err by assumption. apply IH.
    + rewrite Check_ok by assumption.
      destruct (f (val r) w) as [[e|msg] w']; [|discriminate].
      destruct (handleErr r e (w', log ++ [CallCheckFn])) as [[e'|msg] s1];
        [|discriminate].
      intros Hrun. apply (IH _ _ _ _ Hrun).
  - destruct (IsError r) eqn:Hr.
    + rewrite Map_err by assumption. intros Hrun.
      destruct (IH _ _ _ _ Hrun) as [Hh|Hh]; right; exact Hh.
    + rewrite Map_ok by assumption.
      destruct (f (val r) w) as [[v|msg] w']; [|discriminate].
      intros Hrun. apply (IH _ _ _ _ Hrun).
  - destruct (IsError r) eqn:Hr.
    + rewrite MapOrErr_err by assumption. intros Hrun.
      destruct (IH _ _ _ _ Hrun) as [Hh|Hh]; right; exact Hh.
    + rewrite MapOrErr_ok by assumption.
      destruct (f (val r) w) as [[[v e]|msg] w']; [|discriminate].
      destruct (handleErr r e (w', log ++ [CallMapFn])) as [[e'|msg] s1];
        [|discriminate].
      intros Hrun. apply (IH _ _ _ _ Hrun).
Qed.

(** C2 (amended). With handler [h] installed, a [Check] or [MapOrErr] call
    invokes [h] exactly once when its input is Ok and its function returns
    a non-nil error, and not at all otherwise; [Map] never invokes it; once
    a failure is recorded no later call of a chain invokes anything; hence,
    if [h] never returns nil for a non-nil error, [h] is invoked at most
    once in any chain of [Check], [Map] and [MapOrErr] calls. *)
Theorem handler_called_once_per_new_error (h : error E -> Ext W (error E)) :
  (forall T (r : Result E W T) (f : T -> Ext W (error E)) s,
     errHandler r = Some h ->
     calls_of CallErrHandler (log_after (Check r f) s) =
       calls_of CallErrHandler (snd s) +
       (if negb (IsError r) && yields_error (fst (f (val r) (fst s)))
        then 1 else 0)) /\
  (forall T U (Z : Zero U) (r : Result E W T) (f : T -> Ext W (U * error E)) s,
     errHandler r = Some h ->
     calls_of CallErrHandler (log_after (MapOrErr r f) s) =
       calls_of CallErrHandler (snd s) +
       (if negb (IsError r) && yields_error2 (fst (f (val r) (fst s)))
        then 1 else 0)) /\
  (forall T U (Z : Zero U) (r : Result E W T) (f : T -> Ext W U) s,
     calls_of CallErrHandler (log_after (Map r f) s) =
       calls_of CallErrHandler (snd s)) /\
  (forall T V (c : Chain E W T V) (r : Result E W T) s,
     IsError r = true -> log_after (run c r) s = snd s) /\
  (keeps_errors h ->
   forall T V (c : Chain E W T V) (r : Result E W T) s,
     errHandler r = Some h ->
     calls_of CallErrHandler (log_after (run c r) s) <=
       calls_of CallErrHandler (snd s) + 1).
Proof.
  repeat split.
  - intros T r f s Hh. now apply (Check_handler_calls r h).
  - intros T U Z r f s Hh. now apply (MapOrErr_handler_calls r h).
  - intros. now apply Map_handler_calls.
  - intros. now apply run_err_log.
  - intros Hk T V c r s Hh. now apply (run_handler_at_most_once h).
Qed.

(** *** MapOrErr on an Ok input *)

(** C5. On an Ok input with handler [h] installed, [MapOrErr] calls [mapFn]
    once, on the input's value; when [mapFn] returns a non-nil error [e],
    the failure of the returned Result is what [h] returns for [e], and the
    returned Result carries [h]. *)
Theorem MapOrErr_error_through_handler {T U} `{Zero U} (r : Result E W T) h
    (f : T -> Ext W (U * error E)) w log :
  IsError r = false ->
  errHandler r = Some h ->
  calls_of CallMapFn (log_after (MapOrErr r f) (w, log)) =
    calls_of CallMapFn log + 1 /\
  world_after (invoke CallMapFn (f (val r))) (w, log) = snd (f (val r) w) /\
  (forall v e w' e' w'',
     f (val r) w = (Returns (v, Some e), w') ->
     h (Some e) w' = (Returns e', w'') ->
     exists r',
       MapOrErr r f (w, log) =
         (Returns r', (w'', log ++ [CallMapFn; CallErrHandler])) /\
       Err r' = e' /\ errHandler r' = Some h /\ val r' = v).
Proof.
  intros Hr Hh. split; [|split].
  - unfold log_after. rewrite MapOrErr_ok by assumption.
    destruct (f (val r) w) as [[[v [e|]]|msg] w']; simpl.
    + rewrite (handleErr_handler r h) by assumption.
      destruct (h (Some e) w') as [[e'|msg] w'']; count_calls.
    + count_calls.
    + count_calls.
  - unfold world_after, invoke. simpl. now destruct (f (val r) w).
  - intros v e w' e' w'' Hf He. rewrite MapOrErr_ok by assumption.
    rewrite Hf. rewrite (handleErr_handler r h) by assumption.
    rewrite He. simpl. rewrite <- app_assoc. simpl.
    eexists. split; [reflexivity|]. now repeat split.
Qed.

(** *** Check *)

(** C6 (amended). [Check] on an Err input returns the input unchanged
    without calling [checkFn]. On an Ok input it calls [checkFn] on the
    value: when that returns nil the input is returned unchanged; when it
    returns a non-nil error [e], the returned Result keeps value and
    handler and its failure is [e] if no handler is installed and what the
    handler returns for [e] otherwise, so that it is in the Err state
    exactly when that is non-nil. *)
Theorem Check_cases {T} (r : Result E W T) (f : T -> Ext W (error E)) w log :
  (IsError r = true -> Check r f (w, log) = (Returns r, (w, log))) /\
  (IsError r = false ->
     (forall w',
        f (val r) w = (Returns None, w') ->
        Check r f (w, log) = (Returns r, (w', log ++ [CallCheckFn]))) /\
     (forall e w',
        f (val r) w = (Returns (Some e), w') ->
        (errHandler r = None ->
           Check r f (w, log) =
             (Returns (mkResult (val r) (Some e) None),
              (w', log ++ [CallCheckFn]))) /\
        (forall h e' w'',
           errHandler r = Some h ->
           h (Some e) w' = (Returns e', w'') ->
           Check r f (w, log) =
             (Returns (mkResult (val r) e' (Some h)),
              (w'', log ++ [CallCheckFn; CallErrHandler])) /\
           (IsError (mkResult (val r) e' (Some h)) = true <-> e' <> None)))).
Proof.
  split; [now apply Check_err|]. intros Hr. split.
  - intros w' Hf. rewrite Check_ok by assumption. rewrite Hf.
    rewrite handleErr_nil. now rewrite ok_eta.
  - intros e w' Hf. split.
    + intros Hh. rewrite Check_ok by assumption. rewrite Hf.
      rewrite handleErr_no_handler by assumption. now rewrite Hh.
    + intros h e' w'' Hh He. split.
      * rewrite Check_ok by assumption. rewrite Hf.
        rewrite (handleErr_handler r h) by assumption.
        rewrite He. simpl. rewrite <- app_assoc. simpl. now rewrite Hh.
      * unfold IsError. simpl. destruct e'; split; congruence.
Qed.

(** *** Installing a handler *)

(** C7. [WithErrHandler] returns a Result with the value and the failure of
    its input and with the given handler in place of any the input had;
    it calls nothing, so a failure already recorded is not transformed. *)
Theorem WithErrHandler_installs {T} (r : Result E W T)
    (h : option (error E -> Ext W (error E))) s :
  exists r',
    WithErrHandler r h s = (Returns r', s) /\
    val r' = val r /\ Err r' = Err r /\ IsError r' = IsError r /\
    errHandler r' = h.
Proof.
  eexists. split; [reflexivity|]. now repeat split.
Qed.

(** *** Construction *)

(** C8. The Result of [WithReturn(v, e)] is Ok if and only if [e] is nil;
    for a non-nil [e] it is Err and [Err()] returns [e]. *)
Theorem WithReturn_ok_iff_nil {T} (v : T) (e : error E) :
  (IsError (WithReturn (W:=W) v e) = false <-> e = None) /\
  (forall e' : E,
     IsError (WithReturn (W:=W) v (Some e')) = true /\
     Err (WithReturn (W:=W) v (Some e')) = Some e').
Proof.
  split.
  - unfold IsError, WithReturn. simpl. destruct e; split; congruence.
  - intros e'. now split.
Qed.

(** *** Fold *)

(** C9. [Fold] calls exactly one of its two functions, exactly once: [errFn]
    on the failure when the Result is Err, [okFn] on the value otherwise;
    what the call does to the world, and whether it returns, is what that
    function does. *)
Theorem Fold_calls_exactly_one {T} (r : Result E W T)
    (okFn : T -> Ext W unit) (errFn : error E -> Ext W unit) w log :
  (IsError r = true ->
     Fold r okFn errFn (w, log) =
       (fst (errFn (Err r) w), (snd (errFn (Err r) w), log ++ [CallErrFn]))) /\
  (IsError r = false ->
     Fold r okFn errFn (w, log) =
       (fst (okFn (val r) w), (snd (okFn (val r) w), log ++ [CallOkFn]))) /\
  calls_of CallOkFn (log_after (Fold r okFn errFn) (w, log)) +
  calls_of CallErrFn (log_after (Fold r okFn errFn) (w, log)) =
    calls_of CallOkFn log + calls_of CallErrFn log + 1.
Proof.
  unfold log_after, Fold, Err, invoke. destruct (IsError r); simpl.
  - destruct (errFn (err r) w) as [o w']. repeat split; try discriminate.
    count_calls.
  - destruct (okFn (val r) w) as [o w']. repeat split; try discriminate.
    count_calls.
Qed.

(** *** A handler that returns nil *)

(** C10. When the installed handler returns nil for the non-nil error that
    [checkFn], respectively [mapFn], has just returned, [Check] and
    [MapOrErr] record no failure: the returned Result is in the Ok state. *)
Theorem handler_may_swallow_error {T U} `{Zero U} (r : Result E W T) h
    (f : T -> Ext W (error E)) (g : T -> Ext W (U * error E))
    w log e w1 w2 v e2 w3 w4 :
  IsError r = false ->
  errHandler r = Some h ->
  f (val r) w = (Returns (Some e), w1) ->
  h (Some e) w1 = (Returns None, w2) ->
  g (val r) w = (Returns (v, Some e2), w3) ->
  h (Some e2) w3 = (Returns None, w4) ->
  (exists r',
     Check r f (w, log) =
       (Returns r', (w2, log ++ [CallCheckFn; CallErrHandler])) /\
     IsError r' = false /\ Err r' = None /\ val r' = val r) /\
  (exists r',
     MapOrErr r g (w, log) =
       (Returns r', (w4, log ++ [CallMapFn; CallErrHandler])) /\
     IsError r' = false /\ Err r' = None /\ val r' = v).
Proof.
  intros Hr Hh Hf Hhf Hg Hhg. split.
  - rewrite Check_ok by assumption. rewrite Hf.
    rewrite (handleErr_handler r h) by assumption. rewrite Hhf. simpl.
    rewrite <- app_assoc. simpl. eexists. split; [reflexivity|].
    now repeat split.
  - rewrite MapOrErr_ok by assumption. rewrite Hg.
    rewrite (handleErr_handler r h) by assumption. rewrite Hhg. simpl.
    rewrite <- app_assoc. simpl. eexists. split; [reflexivity|].
    now repeat split.
Qed.

End Properties.

(** The accessor of result.go returns the field in either state. *)
Remark NoHandler_Val_returns_field {E T} (v : T) (e : option E) :
  NoHandler.Val (NoHandler.WithReturn v e) = Returns v.
Proof. reflexivity. Qed.


(** TestVal, "Panics with error", run on result.go: [r.Val()] returns the
    nil buffer. *)
Example TestVal_on_result_go :
  NoHandler.IsError
    (NoHandler.WithReturn (fst (Tests.testStub "fail")) (snd (Tests.testStub "fail")))
    = true /\
  NoHandler.Val
    (NoHandler.WithReturn (fst (Tests.testStub "fail")) (snd (Tests.testStub "fail")))
    = Returns None.
Proof. split; reflexivity. Qed.

(** ** The properties at the tests' inputs *)

Import Tests.

(** The Results used below are built by the package's constructors. *)
Example failed_with_handler_built :
  WithErrHandler (WithReturn true (Some "fail"%string)) (Some wrapped) (0, []) =
    (Returns failed_with_handler, (0, [])).
Proof. reflexivity. Qed.

Example just_wrapped_built :
  WithErrHandler (WithJust true) (Some wrapped) (0, []) =
    (Returns just_wrapped, (0, [])).
Proof. reflexivity. Qed.

Example just_swallow_built :
  WithErrHandler (WithJust true) (Some swallow) (0, []) =
    (Returns just_swallow, (0, [])).
Proof. reflexivity. Qed.

Lemma short_circuit_on_err_example :
  IsError failed_with_handler = true /\
  (exists r', Map failed_with_handler (@unexpected bool bool) (0, []) = (Returns r', (0, []))
              /\ Err r' = Err failed_with_handler) /\
  (exists r', MapOrErr failed_with_handler (@unexpected bool (bool * error Error)) (0, [])
                = (Returns r', (0, []))
              /\ Err r' = Err failed_with_handler) /\
  (exists r', Check failed_with_handler (@unexpected bool (error Error)) (0, [])
                = (Returns r', (0, []))
              /\ Err r' = Err failed_with_handler).
Proof.
  split; [reflexivity|].
  apply (short_circuit_on_err failed_with_handler). reflexivity.
Defined.

(** C3, as stated, fails: [Map] on an Err Result with a handler installed
    returns a Result without handler. *)
Lemma Map_err_drops_handler :
  IsError failed_with_handler = true /\
  errHandler failed_with_handler = Some wrapped /\
  exists r',
    Map failed_with_handler negate (0, []) = (Returns r', (0, [])) /\
    errHandler r' = None /\
    errHandler r' <> errHandler failed_with_handler.
Proof.
  split; [reflexivity|]. split; [reflexivity|].
  eexists. split; [reflexivity|]. split; [reflexivity|]. discriminate.
Qed.

Lemma Map_handler_example :
  Map failed_with_handler negate (0, [])
    = (Returns (mkResult false (Some "fail"%string) None), (0, [])) /\
  exists r',
    Map just_wrapped negate (0, []) = (Returns r', (0, [CallMapFn])) /\
    IsError r' = false /\ val r' = false /\ errHandler r' = Some wrapped.
Proof.
  split.
  - apply (proj1 (Map_handler failed_with_handler negate 0 [])). reflexivity.
  - apply (proj2 (Map_handler just_wrapped negate 0 []) eq_refl false 0).
    reflexivity.
Defined.

Lemma Val_panics_on_err_example :
  Val failed_with_handler (0, []) =
    (Panics "called Val for result that IsError", (0, [])) /\
  Val just_wrapped (0, []) = (Returns true, (0, [])).
Proof.
  split.
  - apply (proj1 (Val_panics_on_err failed_with_handler (0, []))). reflexivity.
  - apply (proj2 (Val_panics_on_err just_wrapped (0, []))). reflexivity.
Defined.

(** C2, as stated, fails: with a handler that returns nil installed, two
    failing checks in a row call the handler twice. *)
Lemma swallowing_handler_called_twice :
  errHandler just_swallow = Some swallow /\
  calls_of CallErrHandler (log_after (run check_twice just_swallow) (0, [])) = 2 /\
  world_after (run check_twice just_swallow) (0, []) = 2 /\
  ~ calls_of CallErrHandler (log_after (run check_twice just_swallow) (0, [])) <= 1.
Proof.
  split; [reflexivity|]. split; [reflexivity|]. split; [reflexivity|].
  vm_compute. lia.
Qed.

Lemma handler_called_once_per_new_error_example :
  keeps_errors wrapped /\
  calls_of CallErrHandler (log_after (run wrap_only_once just_wrapped) (0, []))
    <= calls_of CallErrHandler [] + 1.
Proof.
  assert (Hk : keeps_errors wrapped) by (intros e w; discriminate).
  split; [exact Hk|].
  apply (proj2 (proj2 (proj2 (proj2 (handler_called_once_per_new_error wrapped))))
           Hk _ _ wrap_only_once just_wrapped (0, [])).
  reflexivity.
Defined.

(** The test "Wrap only once": one call of the handler, the error wrapped
    once. *)
Example wrap_only_once_run :
  run wrap_only_once just_wrapped (0, []) =
    (Returns (mkResult None (Some "wrapped: fail"%string) None),
     (1, [CallCheckFn; CallErrHandler])).
Proof. reflexivity. Qed.

(** The test "Handler passed on by Map, MapOrErr, and Check". *)
Example handler_passed_on_run :
  run handler_passed_on just_wrapped (0, []) =
    (Returns (mkResult (Some "example"%string) (Some "wrapped: fail"%string)
                (Some wrapped)),
     (1, [CallCheckFn; CallMapFn; CallMapFn; CallCheckFn; CallErrHandler])).
Proof. reflexivity. Qed.

Lemma MapOrErr_error_through_handler_example :
  exists r',
    MapOrErr just_wrapped stubFail (0, []) =
      (Returns r', (1, [CallMapFn; CallErrHandler])) /\
    Err r' = Some "wrapped: fail"%string /\
    errHandler r' = Some wrapped /\ val r' = None.
Proof.
  apply (proj2 (proj2 (MapOrErr_error_through_handler
                         just_wrapped wrapped stubFail 0 [] eq_refl eq_refl))
           None "fail"%string 0 (Some "wrapped: fail"%string) 1);
    reflexivity.
Defined.

(** C6, as stated, fails: the check returns a non-nil error, the handler
    returns nil for it, and the returned Result is Ok. *)
Lemma Check_swallowed_error_stays_ok :
  IsError just_swallow = false /\
  failing (val just_swallow) 0 = (Returns (Some "fail"%string), 0) /\
  exists r',
    Check just_swallow failing (0, []) =
      (Returns r', (1, [CallCheckFn; CallErrHandler])) /\
    IsError r' = false /\ Err r' = None.
Proof.
  split; [reflexivity|]. split; [reflexivity|].
  eexists. split; [reflexivity|]. now split.
Qed.

Lemma Check_cases_example :
  Check just_wrapped failing (0, []) =
    (Returns (mkResult true (Some "wrapped: fail"%string) (Some wrapped)),
     (1, [CallCheckFn; CallErrHandler])) /\
  Check failed_with_handler (@unexpected bool (error Error)) (0, []) =
    (Returns failed_with_handler, (0, [])) /\
  Check just_wrapped passing (0, []) = (Returns just_wrapped, (0, [CallCheckFn])).
Proof.
  split; [|split].
  - destruct (Check_cases just_wrapped failing 0 []) as [_ Hok].
    destruct (Hok eq_refl) as [_ Herr].
    destruct (Herr "fail"%string 0 eq_refl) as [_ Hh].
    exact (proj1 (Hh wrapped (Some "wrapped: fail"%string) 1 eq_refl eq_refl)).
  - apply (proj1 (Check_cases failed_with_handler unexpected 0 [])). reflexivity.
  - apply (proj1 (proj2 (Check_cases just_wrapped passing 0 []) eq_refl) 0).
    reflexivity.
Defined.

Lemma Fold_calls_exactly_one_example :
  Fold (WithJust (E:=Error) 5) counted unexpected (0, []) =
    (Returns tt, (1, [CallOkFn])) /\
  Fold failed_with_handler unexpected counted (0, []) =
    (Returns tt, (1, [CallErrFn])).
Proof.
  split.
  - apply (proj1 (proj2 (Fold_calls_exactly_one
                           (WithJust (E:=Error) 5) counted unexpected 0 []))).
    reflexivity.
  - apply (proj1 (Fold_calls_exactly_one
                    failed_with_handler unexpected counted 0 [])).
    reflexivity.
Defined.

Lemma handler_may_swallow_error_example :
  (exists r',
     Check just_swallow failing (0, []) =
       (Returns r', (1, [CallCheckFn; CallErrHandler])) /\
     IsError r' = false /\ Err r' = None /\ val r' = true) /\
  (exists r',
     MapOrErr just_swallow stubFail (0, []) =
       (Returns r', (1, [CallMapFn; CallErrHandler])) /\
     IsError r' = false /\ Err r' = None /\ val r' = None).
Proof.
  apply (handler_may_swallow_error just_swallow swallow failing stubFail
           0 [] "fail"%string 0 1 None "fail"%string 0 1);
    reflexivity.
Defined.

(** ** Further properties of the combinators *)

Section Laws.

Context {E W : Type}.

Implicit Types (log : list Call) (w : W) (s : W * list Call).

#[local] Arguments handleErr : simpl never.

Lemma IsError_err_eq {T U} (r1 : Result E W T) (r2 : Result E W U) :
  err r1 = err r2 -> IsError r1 = IsError r2.
Proof.
  unfold IsError. now intros ->.
Qed.

Lemma run_err_same {T V} (c : Chain E W T V) :
  forall (r1 r2 : Result E W T) s,
    IsError r1 = true -> val r1 = val r2 -> err r1 = err r2 ->
    exists r1' r2',
      run c r1 s = (Returns r1', s) /\ run c r2 s = (Returns r2', s) /\
      val r1' = val r2' /\ err r1' = err r2' /\ err r1' = err r1.
Proof.
  induction c as [T|T V f rest IH|T U V Z f rest IH|T U V Z f rest IH];
    intros r1 r2 s Hr Hv He;
    assert (Hr2 : IsError r2 = true)
      by (now rewrite <- (IsError_err_eq r1 r2 He));
    simpl; unfold bind.
  - exists r1, r2. now repeat split.
  - rewrite !Check_err by assumption. now apply IH.
  - rewrite !Map_err by assumption. rewrite <- He.
    destruct (IH (mkResult zero (err r1) None) (mkResult zero (err r1) None) s)
      as (r1' & r2' & H1 & H2 & H3 & H4 & H5); try reflexivity; [exact Hr|].
    exists r1', r2'. now repeat split.
  - rewrite !MapOrErr_err by assumption. rewrite <- He.
    destruct (IH (mkResult zero (err r1) None) (mkResult zero (err r1) None) s)
      as (r1' & r2' & H1 & H2 & H3 & H4 & H5); try reflexivity; [exact Hr|].
    exists r1', r2'. now repeat split.
Qed.

(** *** Chains on a failed Result *)

(** X1. A chain of [Check], [Map] and [MapOrErr] calls, of any length, on a
    Result in the Err state returns a Result in the Err state with the same
    failure, and calls none of its functions. *)
Theorem chain_short_circuits {T V} (c : Chain E W T V) (r : Result E W T) s :
  IsError r = true ->
  exists r',
    run c r s = (Returns r', s) /\ IsError r' = true /\ Err r' = Err r.
Proof.
  intros Hr. destruct (run_err c r s Hr) as (r' & Hrun & Herr).
  exists r'. repeat split; try assumption.
  now rewrite (IsError_err_eq r' r Herr).
Qed.

(** X2. [Fold] after any chain on a Result in the Err state calls [errFn],
    once, with the failure the chain started with, and nothing else. *)
Theorem chain_then_Fold_reports_failure {T V} (c : Chain E W T V)
    (r : Result E W T) (okFn : V -> Ext W unit) (errFn : error E -> Ext W unit)
    w log :
  IsError r = true ->
  bind (run c r) (fun r' => Fold r' okFn errFn) (w, log) =
    (fst (errFn (Err r) w), (snd (errFn (Err r) w), log ++ [CallErrFn])).
Proof.
  intros Hr. destruct (run_err c r (w, log) Hr) as (r' & Hrun & Herr).
  unfold bind. rewrite Hrun. unfold Fold, invoke, Err.
  rewrite (IsError_err_eq r' r Herr), Hr, Herr. simpl.
  now destruct (errFn (err r) w).
Qed.

(** X3. The handler carried by a Result in the Err state has no effect:
    with any other handler, or none, in its place, every chain returns the
    same value and failure and leaves the same world and log. *)
Theorem handler_of_err_is_unobservable {T V} (c : Chain E W T V)
    (r : Result E W T) (h' : option (error E -> Ext W (error E))) s :
  IsError r = true ->
  Fn.returned (fst (run c (mkResult (val r) (err r) h') s)) =
    Fn.returned (fst (run c r s)) /\
  snd (run c (mkResult (val r) (err r) h') s) = snd (run c r s).
Proof.
  intros Hr.
  destruct (run_err_same c r (mkResult (val r) (err r) h') s Hr eq_refl eq_refl)
    as (r1' & r2' & H1 & H2 & Hv & He & _).
  rewrite H1, H2. simpl. unfold Return. now rewrite Hv, He.
Qed.

(** X4. When a [Check] or [MapOrErr] call records a failure, that failure is
    what the whole chain returns, and no later call of the chain calls
    anything. *)
Theorem first_failure_is_final {T U V} `{Zero U} (r : Result E W T)
    (f : T -> Ext W (error E)) (g : T -> Ext W (U * error E))
    (rest1 : Chain E W T V) (rest2 : Chain E W U V) s :
  (forall r1 s1,
     Check r f s = (Returns r1, s1) -> IsError r1 = true ->
     exists r', run (ThenCheck f rest1) r s = (Returns r', s1) /\
                Err r' = Err r1) /\
  (forall r1 s1,
     MapOrErr r g s = (Returns r1, s1) -> IsError r1 = true ->
     exists r', run (ThenMapOrErr g rest2) r s = (Returns r', s1) /\
                Err r' = Err r1).
Proof.
  split; intros r1 s1 Hstep Hr1; simpl; unfold bind; rewrite Hstep.
  - now apply run_err.
  - now apply run_err.
Qed.

(** *** Map *)

(** X5. [Map] with the identity function returns an Ok Result unchanged. *)
Theorem Map_identity {T} `{Zero T} (r : Result E W T) w log :
  IsError r = false ->
  Map r Fn.identity (w, log) = (Returns r, (w, log ++ [CallMapFn])).
Proof.
  intros Hr. rewrite Map_ok by assumption. unfold Fn.identity.
  now rewrite ok_eta.
Qed.

(** X6. Two [Map] calls in a row return the Result, and leave the world, of
    one [Map] call with the composed function, in either state and also
    when a function panics. *)
Theorem Map_compose {T U V} `{Zero U} `{Zero V} (r : Result E W T)
    (f : T -> Ext W U) (g : U -> Ext W V) s :
  fst (bind (Map r f) (fun r1 => Map r1 g) s) = fst (Map r (Fn.andThen f g) s) /\
  world_after (bind (Map r f) (fun r1 => Map r1 g)) s =
    world_after (Map r (Fn.andThen f g)) s.
Proof.
  destruct s as [w log]. unfold world_after, bind.
  destruct (IsError r) eqn:Hr.
  - rewrite !Map_err by assumption. now split.
  - rewrite !Map_ok by assumption. unfold Fn.andThen.
    destruct (f (val r) w) as [[y|msg] w1]; [|now split].
    cbv beta iota. rewrite Map_ok by reflexivity. simpl.
    now destruct (g y w1) as [[z|msg] w2].
Qed.

(** X7. [MapOrErr] with a function that never returns an error is [Map]. *)
Theorem MapOrErr_generalises_Map {T U} `{Zero U} (r : Result E W T)
    (f : T -> Ext W U) s :
  MapOrErr r (Fn.noError f) s = Map r f s.
Proof.
  destruct s as [w log]. destruct (IsError r) eqn:Hr.
  - now rewrite MapOrErr_err, Map_err by assumption.
  - rewrite MapOrErr_ok, Map_ok by assumption. unfold Fn.noError.
    now destruct (f (val r) w) as [[y|msg] w1].
Qed.

(** *** Panics *)

(** X8. A panic of a function the caller passed is not recovered: [Map],
    [MapOrErr], [Check] and [Fold] panic with the same message once they
    have called it, and so does [Check] when the handler panics. *)
Theorem panic_propagates {T U} `{Zero U} (r : Result E W T)
    (f : T -> Ext W U) (g : T -> Ext W (U * error E)) (k : T -> Ext W (error E))
    (okFn : T -> Ext W unit) (errFn : error E -> Ext W unit) w log msg w' :
  IsError r = false ->
  (f (val r) w = (Panics msg, w') ->
     Map r f (w, log) = (Panics msg, (w', log ++ [CallMapFn]))) /\
  (g (val r) w = (Panics msg, w') ->
     MapOrErr r g (w, log) = (Panics msg, (w', log ++ [CallMapFn]))) /\
  (k (val r) w = (Panics msg, w') ->
     Check r k (w, log) = (Panics msg, (w', log ++ [CallCheckFn]))) /\
  (okFn (val r) w = (Panics msg, w') ->
     Fold r okFn errFn (w, log) = (Panics msg, (w', log ++ [CallOkFn]))) /\
  (forall h e w1,
     errHandler r = Some h ->
     k (val r) w = (Returns (Some e), w1) ->
     h (Some e) w1 = (Panics msg, w') ->
     Check r k (w, log) =
       (Panics msg, (w', log ++ [CallCheckFn; CallErrHandler]))).
Proof.
  intros Hr. repeat split.
  - intros Hf. rewrite Map_ok by assumption. now rewrite Hf.
  - intros Hg. rewrite MapOrErr_ok by assumption. now rewrite Hg.
  - intros Hk. rewrite Check_ok by assumption. now rewrite Hk.
  - intros Hok. unfold Fold, invoke. rewrite Hr. simpl. now rewrite Hok.
  - intros h e w1 Hh Hk Hhe. rewrite Check_ok by assumption. rewrite Hk.
    rewrite (handleErr_handler r h) by assumption. rewrite Hhe. simpl.
    now rewrite <- app_assoc.
Qed.

(** *** What the handler is given *)

(** X9. The handler is never called with nil: two handlers that agree on
    every non-nil error make [Check] and [MapOrErr] return the same value
    and failure and leave the same world and log. *)
Theorem handler_sees_only_errors {T U} `{Zero U} (r1 r2 : Result E W T)
    (h1 h2 : error E -> Ext W (error E))
    (k : T -> Ext W (error E)) (g : T -> Ext W (U * error E)) s :
  val r1 = val r2 -> err r1 = err r2 ->
  errHandler r1 = Some h1 -> errHandler r2 = Some h2 ->
  (forall e w, h1 (Some e) w = h2 (Some e) w) ->
  (Fn.returned (fst (Check r1 k s)) = Fn.returned (fst (Check r2 k s)) /\
   snd (Check r1 k s) = snd (Check r2 k s)) /\
  (Fn.returned (fst (MapOrErr r1 g s)) = Fn.returned (fst (MapOrErr r2 g s)) /\
   snd (MapOrErr r1 g s) = snd (MapOrErr r2 g s)).
Proof.
  intros Hv He Hh1 Hh2 Hagree. destruct s as [w log].
  pose proof (IsError_err_eq r1 r2 He) as Hi.
  destruct (IsError r2) eqn:Hr2.
  - rewrite !Check_err, !MapOrErr_err by assumption. simpl. unfold Return.
    simpl. now rewrite Hv, He.
  - rewrite !Check_ok, !MapOrErr_ok by assumption. rewrite Hv. split.
    + destruct (k (val r2) w) as [[[e|]|msg] w1].
      * rewrite (handleErr_handler r1 h1), (handleErr_handler r2 h2)
          by assumption.
        rewrite Hagree. simpl.
        now destruct (h2 (Some e) w1) as [[e'|msg] w2].
      * rewrite !handleErr_nil. now split.
      * now split.
    + destruct (g (val r2) w) as [[[v [e|]]|msg] w1].
      * rewrite (handleErr_handler r1 h1), (handleErr_handler r2 h2)
          by assumption.
        rewrite Hagree. simpl.
        now destruct (h2 (Some e) w1) as [[e'|msg] w2].
      * rewrite !handleErr_nil. now split.
      * now split.
Qed.

(** *** Return *)

(** X10. What [Return()] gives back after a short-circuit: [Check] keeps the
    value of its Err input, [Map] and [MapOrErr] replace it by the zero
    value of the new type; the failure is the input's in all three. *)
Theorem Return_after_short_circuit {T U} `{Zero U} (r : Result E W T)
    (f : T -> Ext W U) (g : T -> Ext W (U * error E)) (k : T -> Ext W (error E)) s :
  IsError r = true ->
  Fn.returned (fst (Check r k s)) = Returns (val r, Err r) /\
  Fn.returned (fst (Map r f s)) = Returns (zero, Err r) /\
  Fn.returned (fst (MapOrErr r g s)) = Returns (zero, Err r).
Proof.
  intros Hr. now rewrite Check_err, Map_err, MapOrErr_err by assumption.
Qed.

(** [WithReturn] and [Return] are inverse to each other on value and
    error: [Return] gives back the pair [WithReturn] was built from, and
    [WithReturn] of the pair [Return] gives has the value, the failure and
    the state of the Result it was taken from, without its handler. *)
Remark Return_WithReturn {T} (v : T) (e : error E) (r : Result E W T) :
  Return (WithReturn (W:=W) v e) = (v, e) /\
  WithReturn (W:=W) (fst (Return r)) (snd (Return r)) =
    mkResult (val r) (err r) None /\
  IsError (WithReturn (W:=W) (fst (Return r)) (snd (Return r))) = IsError r.
Proof.
  now repeat split.
Qed.

(** *** The package without handler *)

(** X11. A Result without handler behaves as the Result of result.go: the
    constructors build the same fields, [IsError] and [Err] agree, and
    [Map], [MapOrErr] and [Fold] make the same calls and return the same
    fields, again without handler. *)
Theorem no_handler_is_result_go {T U} `{Zero U} (r : Result E W T)
    (f : T -> Ext W U) (g : T -> Ext W (U * error E))
    (okFn : T -> Ext W unit) (errFn : error E -> Ext W unit)
    (v : T) (e : error E) s :
  errHandler r = None ->
  (NoHandler.forget (WithReturn (W:=W) v e) = NoHandler.WithReturn v e /\
   NoHandler.forget (WithJust (E:=E) (W:=W) v) = NoHandler.WithJust v) /\
  (NoHandler.IsError (NoHandler.forget r) = IsError r /\
   NoHandler.Err (NoHandler.forget r) = Err r /\
   NoHandler.Return (NoHandler.forget r) = Return r) /\
  NoHandler.forget_returned (Map r f s) = NoHandler.Map (NoHandler.forget r) f s /\
  NoHandler.forget_returned (MapOrErr r g s) =
    NoHandler.MapOrErr (NoHandler.forget r) g s /\
  Fold r okFn errFn s = NoHandler.Fold (NoHandler.forget r) okFn errFn s /\
  (forall r' s', Map r f s = (Returns r', s') -> errHandler r' = None) /\
  (forall r' s', MapOrErr r g s = (Returns r', s') -> errHandler r' = None).
Proof.
  intros Hh. destruct s as [w log].
  split; [now split|]. split; [now repeat split|].
  assert (Hi : NoHandler.IsError (NoHandler.forget r) = IsError r) by reflexivity.
  unfold NoHandler.Map, NoHandler.MapOrErr, NoHandler.Fold. rewrite Hi.
  destruct (IsError r) eqn:Hr.
  - rewrite Map_err, MapOrErr_err by assumption.
    unfold Fold. rewrite Hr. repeat split.
    + now intros r' s' [= <- _].
    + now intros r' s' [= <- _].
  - rewrite Map_ok, MapOrErr_ok by assumption.
    unfold Fold, bind, invoke, ret. rewrite Hr. simpl. repeat split.
    + now destruct (f (val r) w) as [[y|msg] w1].
    + destruct (g (val r) w) as [[[y e1]|msg] w1]; [|reflexivity].
      now rewrite handleErr_no_handler by assumption.
    + destruct (f (val r) w) as [[y|msg] w1]; [|discriminate].
      now intros r' s' [= <- _].
    + destruct (g (val r) w) as [[[y e1]|msg] w1]; [|discriminate].
      rewrite handleErr_no_handler by assumption.
      now intros r' s' [= <- _].
Qed.

(** *** The handler along a chain *)

Lemma run_ok_handler {T V} (c : Chain E W T V) :
  forall (r : Result E W T) s r' s',
    run c r s = (Returns r', s') ->
    IsError r' = false ->
    IsError r = false /\ errHandler r' = errHandler r.
Proof.
  induction c as [T|T V f rest IH|T U V Z f rest IH|T U V Z f rest IH];
    intros r [w log] r' s' Hrun Hr';
    (destruct (IsError r) eqn:Hr;
      [match type of Hrun with
       | run ?c0 _ _ = _ =>
           destruct (run_err c0 r (w, log) Hr) as (r1 & H1 & He)
       end;
       rewrite H1 in Hrun; injection Hrun as <- _;
       rewrite (IsError_err_eq r1 r He), Hr in Hr'; discriminate|]);
    split; try reflexivity; simpl in Hrun; unfold bind in Hrun.
  - unfold ret in Hrun. now injection Hrun as <- _.
  - rewrite Check_ok in Hrun by assumption.
    destruct (f (val r) w) as [[e|msg] w1]; [|discriminate].
    destruct (handleErr r e (w1, log ++ [CallCheckFn])) as [[e'|msg] s1];
      [|discriminate].
    now destruct (IH _ _ _ _ Hrun Hr') as [_ Hh].
  - rewrite Map_ok in Hrun by assumption.
    destruct (f (val r) w) as [[v|msg] w1]; [|discriminate].
    now destruct (IH _ _ _ _ Hrun Hr') as [_ Hh].
  - rewrite MapOrErr_ok in Hrun by assumption.
    destruct (f (val r) w) as [[[v e]|msg] w1]; [|discriminate].
    destruct (handleErr r e (w1, log ++ [CallMapFn])) as [[e'|msg] s1];
      [|discriminate].
    now destruct (IH _ _ _ _ Hrun Hr') as [_ Hh].
Qed.

(** X16. The handler is passed on by [Check], [Map] and [MapOrErr]: when a
    chain returns a Result in the Ok state, the Result it started from was
    Ok and the returned Result carries its handler. *)
Theorem handler_passed_on_while_ok {T V} (c : Chain E W T V)
    (r : Result E W T) s r' s' :
  run c r s = (Returns r', s') ->
  IsError r' = false ->
  IsError r = false /\ errHandler r' = errHandler r.
Proof.
  apply run_ok_handler.
Qed.

End Laws.

(** ** Properties of the example's validators *)

Section Validators.

Import EchoUser.

Context {W : Type}.

Implicit Types (log : list Call) (w : W) (s : W * list Call) (req : Request).

Lemma validRequest_run method path req w log :
  validRequest method path req (w, log) =
    (Returns (validRequest_direct method path req),
     (w, log ++ repeat CallCheckFn (checks_run method path req))).
Proof.
  unfold validRequest, validRequest_direct, checks_run, bind, Check, Fn.pure,
    invoke, ret, handleErr, IsError, WithJust, Err.
  simpl.
  destruct (acceptsJSON req) as [e1|]; simpl; [reflexivity|].
  destruct (contentTypeJSON req) as [e2|]; simpl;
    [now rewrite <- app_assoc|].
  destruct (requestMatch (Path req) path StatusNotFound req) as [e3|]; simpl;
    [now rewrite <- !app_assoc|].
  destruct (requestMatch (Method req) method StatusNotFound req) as [e4|];
    simpl; now rewrite <- !app_assoc.
Qed.

Lemma requestMatch_nil got want c req :
  requestMatch got want c req = None <-> got = want.
Proof.
  unfold requestMatch. destruct (String.eqb_spec got want); simpl; split;
    congruence.
Qed.

(** The header checks read the header alone. *)
Lemma header_checks_read_headers (r1 r2 : Request) :
  Header_Get r1 = Header_Get r2 ->
  acceptsJSON r1 = acceptsJSON r2 /\ contentTypeJSON r1 = contentTypeJSON r2.
Proof.
  unfold acceptsJSON, contentTypeJSON. now intros ->.
Qed.

(** X12. [validRequest] on the pointer it is given. On a nil request it
    panics inside the first check. On a request whose URL is nil it panics
    when [req.URL.Path] is read, after the header checks, also when a header
    check has already failed: after one check call if the accepts header is
    refused, after two otherwise. On a request with a URL it returns, with
    the world as it was, the error of the first check that fails in the
    order accepts, content-type, path, method (nil if none does), after as
    many check calls as the position of that check, four if none fails. *)
Theorem validRequest_ptr_cases method path w log :
  validRequest_ptr method path NilRequest (w, log) =
    (Panics nilDereference, (w, log ++ [CallCheckFn])) /\
  (forall m h,
     validRequest_ptr method path (NoURL m h) (w, log) =
       (Panics nilDereference,
        (w, log ++ repeat CallCheckFn
                     (match acceptsJSON (withoutURL m h) with
                      | Some _ => 1
                      | None => 2
                      end)))) /\
  (forall req,
     validRequest_ptr method path (WithURL req) (w, log) =
       (Returns (validRequest_direct method path req),
        (w, log ++ repeat CallCheckFn (checks_run method path req))) /\
     validRequest_ptr method path (WithURL req) (w, log) =
       validRequest method path req (w, log)).
Proof.
  split; [reflexivity|]. split.
  - intros m h.
    unfold validRequest_ptr, bind, Check, onRequest, urlPath, panic, invoke,
      ret, handleErr, IsError, WithJust.
    simpl.
    destruct (acceptsJSON (withoutURL m h)) as [e1|]; simpl; [reflexivity|].
    destruct (contentTypeJSON (withoutURL m h)) as [e2|]; simpl;
      now rewrite <- app_assoc.
  - intros req.
    assert (Hptr : validRequest_ptr method path (WithURL req) (w, log) =
                   validRequest method path req (w, log)).
    { unfold validRequest_ptr, validRequest, bind, Check, onRequest, urlPath,
        methodOf, Fn.pure, invoke, ret, handleErr, IsError, WithJust, Err.
      simpl.
      destruct (acceptsJSON req) as [e1|]; simpl; [reflexivity|].
      destruct (contentTypeJSON req) as [e2|]; simpl; [reflexivity|].
      unfold requestMatchPtr, requestMatch.
      destruct (negb (Path req =? path)%string); simpl; [reflexivity|].
      now destruct (negb (Method req =? method)%string). }
    split; [|exact Hptr]. rewrite Hptr. apply validRequest_run.
Qed.

(** X13. [validRequest] returns nil exactly when the accepts and the
    content-type header are each absent or [application/json], the path is
    the expected path and the method the expected method. *)
Theorem validRequest_nil_iff method path req s :
  fst (validRequest method path req s) = Returns None <->
  notJSON (Header_Get req "accepts") = false /\
  notJSON (Header_Get req "content-type") = false /\
  Path req = path /\ Method req = method.
Proof.
  destruct s as [w log]. rewrite validRequest_run. simpl.
  unfold validRequest_direct, acceptsJSON, contentTypeJSON.
  destruct (notJSON (Header_Get req "accepts"));
    [split; [discriminate|intros [? _]; discriminate]|].
  destruct (notJSON (Header_Get req "content-type"));
    [split; [discriminate|intros (_ & ? & _); discriminate]|].
  destruct (requestMatch (Path req) path StatusNotFound req) as [e3|] eqn:H3.
  - split; [discriminate|]. intros (_ & _ & Hp & _).
    apply (proj2 (requestMatch_nil _ _ StatusNotFound req)) in Hp.
    rewrite H3 in Hp. discriminate.
  - apply requestMatch_nil in H3.
    destruct (requestMatch (Method req) method StatusNotFound req) as [e4|] eqn:H4.
    + split; [discriminate|]. intros (_ & _ & _ & Hm).
      apply (proj2 (requestMatch_nil _ _ StatusNotFound req)) in Hm.
      rewrite H4 in Hm. discriminate.
    + apply requestMatch_nil in H4. now repeat split.
Qed.

(** X14. An error of [validRequest] either has code 400, when a header is
    not JSON, or is the "invalid request" error with code 404, when the
    headers pass and the path or the method differs: a wrong method is
    reported like a wrong path. *)
Theorem validRequest_errors method path req s e :
  fst (validRequest method path req s) = Returns (Some e) ->
  (code e = 400%Z /\
   (notJSON (Header_Get req "accepts") = true \/
    notJSON (Header_Get req "content-type") = true)) \/
  (e = mkInvalidRequest "invalid request" 404 /\
   notJSON (Header_Get req "accepts") = false /\
   notJSON (Header_Get req "content-type") = false /\
   (Path req <> path \/ Method req <> method)).
Proof.
  destruct s as [w log]. rewrite validRequest_run. simpl.
  unfold validRequest_direct, acceptsJSON, contentTypeJSON.
  destruct (notJSON (Header_Get req "accepts"));
    [intros [= <-]; left; split; [reflexivity|now left]|].
  destruct (notJSON (Header_Get req "content-type"));
    [intros [= <-]; left; split; [reflexivity|now right]|].
  unfold requestMatch.
  destruct (String.eqb_spec (Path req) path) as [Hp|Hp]; simpl.
  - destruct (String.eqb_spec (Method req) method) as [Hm|Hm]; simpl;
      [discriminate|].
    intros [= <-]. right. repeat split. now right.
  - intros [= <-]. right. repeat split. now left.
Qed.

End Validators.

Section Handler.

Import EchoUser.

Context {W Reader User : Type} `{Zero Reader} `{Zero User}.
Variable bodyWithLimit : Request -> Ext W Reader.
Variable decodeUser : Reader -> Ext W (User * error InvalidRequest).
Variable encode : User -> Ext W unit.
Variable encodeError : error InvalidRequest -> Ext W unit.

#[local] Arguments handleErr : simpl never.

Lemma asExt_validRequest method path (req : Request) (w : W) :
  Fn.asExt (validRequest method path req) w =
    (Returns (validRequest_direct method path req), w).
Proof.
  unfold Fn.asExt. now rewrite validRequest_run.
Qed.

Lemma echoUser_checked (r : Request) (w : W) (log : list Call) :
  echoUser bodyWithLimit decodeUser encode encodeError r (w, log) =
    bind (bind (Map (mkResult r (validRequest_direct "POST" "/echo" r) None)
                  bodyWithLimit)
            (fun body => MapOrErr body decodeUser))
      (fun user => Fold user encode encodeError)
      (w, log ++ [CallCheckFn]).
Proof.
  unfold echoUser. unfold bind at 1. rewrite Check_ok by reflexivity.
  cbn [val WithJust]. rewrite asExt_validRequest.
  rewrite handleErr_no_handler by reflexivity.
  unfold bind. cbn [val errHandler WithJust].
  destruct (Map _ bodyWithLimit _) as [[body|m] s1]; [|reflexivity].
  reflexivity.
Qed.

(** X15. [echoUser]: when [validRequest] rejects the request, the body is
    not read, nothing is decoded, and [encodeError] is called with the
    validation error; when the request is valid, the body is read and
    decoded, and [encodeError] is called with the decoder's error if there
    is one, [encode] with the user otherwise. *)
Theorem echoUser_cases (r : Request) (w : W) (log : list Call) :
  (forall e,
     validRequest_direct "POST" "/echo" r = Some e ->
     echoUser bodyWithLimit decodeUser encode encodeError r (w, log) =
       (fst (encodeError (Some e) w),
        (snd (encodeError (Some e) w), log ++ [CallCheckFn; CallErrFn]))) /\
  (validRequest_direct "POST" "/echo" r = None ->
   forall body w1,
     bodyWithLimit r w = (Returns body, w1) ->
     (forall u e w2,
        decodeUser body w1 = (Returns (u, Some e), w2) ->
        echoUser bodyWithLimit decodeUser encode encodeError r (w, log) =
          (fst (encodeError (Some e) w2),
           (snd (encodeError (Some e) w2),
            log ++ [CallCheckFn; CallMapFn; CallMapFn; CallErrFn]))) /\
     (forall u w2,
        decodeUser body w1 = (Returns (u, None), w2) ->
        echoUser bodyWithLimit decodeUser encode encodeError r (w, log) =
          (fst (encode u w2),
           (snd (encode u w2),
            log ++ [CallCheckFn; CallMapFn; CallMapFn; CallOkFn])))).
Proof.
  split.
  - intros e He. rewrite echoUser_checked, He. unfold bind.
    rewrite Map_err by reflexivity. rewrite MapOrErr_err by reflexivity.
    unfold Fold, invoke. simpl.
    destruct (encodeError (Some e) w). now rewrite <- app_assoc.
  - intros Hv body w1 Hb. split.
    + intros u e w2 Hd. rewrite echoUser_checked, Hv. unfold bind.
      rewrite Map_ok by reflexivity. cbn [val]. rewrite Hb.
      rewrite MapOrErr_ok by reflexivity. cbn [val]. rewrite Hd.
      rewrite handleErr_no_handler by reflexivity.
      unfold Fold, invoke. simpl.
      destruct (encodeError (Some e) w2). now rewrite <- !app_assoc.
    + intros u w2 Hd. rewrite echoUser_checked, Hv. unfold bind.
      rewrite Map_ok by reflexivity. cbn [val]. rewrite Hb.
      rewrite MapOrErr_ok by reflexivity. cbn [val]. rewrite Hd.
      rewrite handleErr_nil.
      unfold Fold, invoke. simpl.
      destruct (encode u w2). now rewrite <- !app_assoc.
Qed.

End Handler.

(** ** The further properties at the tests' and the example's inputs *)

Lemma chain_short_circuits_example :
  exists r',
    run wrap_only_once failed_with_handler (0, []) = (Returns r', (0, [])) /\
    IsError r' = true /\ Err r' = Err failed_with_handler.
Proof.
  apply (chain_short_circuits wrap_only_once failed_with_handler (0, [])).
  reflexivity.
Defined.

Lemma chain_then_Fold_reports_failure_example :
  bind (run wrap_only_once failed_with_handler)
    (fun r' => Fold r' unexpected counted) (0, []) =
    (Returns tt, (1, [CallErrFn])).
Proof.
  exact (chain_then_Fold_reports_failure wrap_only_once failed_with_handler
           unexpected counted 0 [] eq_refl).
Defined.

Lemma handler_of_err_is_unobservable_example :
  Fn.returned (fst (run check_twice (mkResult true (Some "fail"%string) None) (0, []))) =
    Fn.returned (fst (run check_twice failed_with_handler (0, []))) /\
  snd (run check_twice (mkResult true (Some "fail"%string) None) (0, [])) =
    snd (run check_twice failed_with_handler (0, [])).
Proof.
  exact (handler_of_err_is_unobservable check_twice failed_with_handler None
           (0, []) eq_refl).
Defined.

Lemma first_failure_is_final_example :
  exists r',
    run (ThenCheck failing (ThenMapOrErr stubFail Stop)) just_wrapped (0, []) =
      (Returns r', (1, [CallCheckFn; CallErrHandler])) /\
    Err r' = Some "wrapped: fail"%string.
Proof.
  apply (proj1 (first_failure_is_final just_wrapped failing stubFail
                  (ThenMapOrErr stubFail Stop) Stop (0, []))
           (mkResult true (Some "wrapped: fail"%string) (Some wrapped))
           (1, [CallCheckFn; CallErrHandler]));
    reflexivity.
Defined.

Lemma Map_identity_example :
  Map just_wrapped Fn.identity (0, []) = (Returns just_wrapped, (0, [CallMapFn])).
Proof.
  exact (Map_identity just_wrapped 0 [] eq_refl).
Defined.

Lemma panic_propagates_example :
  Map just_wrapped (@unexpected bool bool) (0, []) =
    (Panics "unexpected call", (0, [CallMapFn])) /\
  MapOrErr just_wrapped (@unexpected bool (bool * error Error)) (0, []) =
    (Panics "unexpected call", (0, [CallMapFn])) /\
  Check just_wrapped (@unexpected bool (error Error)) (0, []) =
    (Panics "unexpected call", (0, [CallCheckFn])) /\
  Fold just_wrapped (@unexpected bool unit) counted (0, []) =
    (Panics "unexpected call", (0, [CallOkFn])).
Proof.
  destruct (panic_propagates just_wrapped (@unexpected bool bool)
              (@unexpected bool (bool * error Error))
              (@unexpected bool (error Error)) (@unexpected bool unit) counted
              0 [] "unexpected call"%string 0 eq_refl)
    as (HMap & HMapOrErr & HCheck & HFold & _).
  split; [apply HMap; reflexivity|].
  split; [apply HMapOrErr; reflexivity|].
  split; [apply HCheck; reflexivity|apply HFold; reflexivity].
Defined.

Lemma handler_sees_only_errors_example :
  (Fn.returned (fst (Check just_wrapped passing (0, []))) =
     Fn.returned (fst (Check (mkResult true None (Some wrapped_or_nil)) passing (0, []))) /\
   snd (Check just_wrapped passing (0, [])) =
     snd (Check (mkResult true None (Some wrapped_or_nil)) passing (0, []))) /\
  (Fn.returned (fst (MapOrErr just_wrapped stubFail (0, []))) =
     Fn.returned (fst (MapOrErr (mkResult true None (Some wrapped_or_nil)) stubFail (0, []))) /\
   snd (MapOrErr just_wrapped stubFail (0, [])) =
     snd (MapOrErr (mkResult true None (Some wrapped_or_nil)) stubFail (0, []))).
Proof.
  apply (handler_sees_only_errors just_wrapped
           (mkResult true None (Some wrapped_or_nil)) wrapped wrapped_or_nil
           passing stubFail (0, [])); reflexivity.
Defined.

Lemma Return_after_short_circuit_example :
  Fn.returned (fst (Check failed_with_handler passing (0, []))) =
    Returns (true, Some "fail"%string) /\
  Fn.returned (fst (Map failed_with_handler negate (0, []))) =
    Returns (false, Some "fail"%string) /\
  Fn.returned (fst (MapOrErr failed_with_handler
                      (@unexpected bool (bool * error Error)) (0, []))) =
    Returns (false, Some "fail"%string).
Proof.
  exact (Return_after_short_circuit failed_with_handler negate unexpected passing
           (0, []) eq_refl).
Defined.

Lemma no_handler_is_result_go_example :
  NoHandler.forget_returned
      (Map (WithJust (E:=Error) (W:=World) true) negate (0, [])) =
    NoHandler.Map (NoHandler.WithJust true) negate (0, []) /\
  NoHandler.forget_returned
      (MapOrErr (WithJust (E:=Error) (W:=World) true) stubFail (0, [])) =
    NoHandler.MapOrErr (NoHandler.WithJust true) stubFail (0, []).
Proof.
  destruct (no_handler_is_result_go
              (WithJust (E:=Error) (W:=World) true) negate
              (fun b w => (Returns (negb b, None), w)) counted counted
              true None (0, []) eq_refl)
    as (_ & _ & HMap & _).
  destruct (no_handler_is_result_go
              (WithJust (E:=Error) (W:=World) true)
              (fun _ w => (Returns None, w)) stubFail counted counted
              true None (0, []) eq_refl)
    as (_ & _ & _ & HMapOrErr & _).
  split; [exact HMap|exact HMapOrErr].
Defined.

Lemma validRequest_errors_example :
  EchoUser.mkInvalidRequest "invalid request" 404 =
    EchoUser.mkInvalidRequest "invalid request" 404 /\
  EchoUser.notJSON (EchoUser.Header_Get (EchoUser.testRequest "GET" "/echo") "accepts") = false /\
  EchoUser.notJSON (EchoUser.Header_Get (EchoUser.testRequest "GET" "/echo") "content-type") = false /\
  (EchoUser.Path (EchoUser.testRequest "GET" "/echo") <> "/echo"%string \/
   EchoUser.Method (EchoUser.testRequest "GET" "/echo") <> "POST"%string).
Proof.
  destruct (validRequest_errors (W:=unit) "POST" "/echo"
              (EchoUser.testRequest "GET" "/echo") (tt, [])
              (EchoUser.mkInvalidRequest "invalid request" 404) eq_refl)
    as [[Hcode _]|Hnot_found].
  - discriminate Hcode.
  - exact Hnot_found.
Defined.

(** The first request of [Example]: status 400 and the decoder's message. *)
Lemma echoUser_cases_example :
  EchoUser.echoUser (EchoUser.readBody "invalid")
    (EchoUser.decodeWith EchoUser.decodeStub)
    EchoUser.recordUser EchoUser.recordError
    (EchoUser.testRequest "POST" "/echo") ([], []) =
    (Returns tt,
     ([(400%Z, ("invalid character 'i' looking for beginning of value"
                ++ EchoUser.newline)%string)],
      [CallCheckFn; CallMapFn; CallMapFn; CallErrFn])).
Proof.
  destruct (echoUser_cases (EchoUser.readBody "invalid")
              (EchoUser.decodeWith EchoUser.decodeStub)
              EchoUser.recordUser EchoUser.recordError
              (EchoUser.testRequest "POST" "/echo") [] [])
    as [_ Hvalid].
  destruct (Hvalid eq_refl "invalid"%string [] eq_refl) as [Hbad _].
  exact (Hbad EmptyString
           (EchoUser.mkInvalidRequest
              "invalid character 'i' looking for beginning of value"
              EchoUser.StatusBadRequest)
           [] eq_refl).
Defined.

Lemma handler_passed_on_while_ok_example :
  IsError just_wrapped = false /\
  errHandler (mkResult (Some "example"%string) None (Some wrapped)) =
    errHandler just_wrapped.
Proof.
  exact (handler_passed_on_while_ok
           (ThenCheck passing (ThenMapOrErr stubExample (ThenMap limit10 Stop)))
           just_wrapped (0, [])
           (mkResult (Some "example"%string) None (Some wrapped))
           (0, [CallCheckFn; CallMapFn; CallMapFn])
           eq_refl eq_refl).
Defined.
